(** * video-cut1.py: time ranges, segment planning and subtitle re-timing

    A shallow embedding of [src/video-cut1.py] and the properties of its
    time parser, range validator, fade check, segment cutter and subtitle
    re-timer.

    Modelling conventions.
    - A Python [str] is a [string]; a character is a code point below 256.
      On that range the regular-expression class [\d] is exactly ['0'..'9']
      and [str.strip] removes exactly the characters of [is_space].
    - A Python [int] is a [Z].  A Python [float] is modelled twice.  The
      first part of the file reads it as the exact rational it denotes
      ([Q]), with the exact operations [+ - * / // %], [int] and [round]:
      binary64 rounding, overflow and inf/nan are outside that reading,
      and what is proved there is about the text of the times, the shape
      of the output and the order of the calls.  Module [F64] models the
      same functions on binary64 floats ([spec_float], precision 53,
      round to nearest, ties to even), with the comparisons of floats,
      inf and nan, [OverflowError] and the digit limit of [int]; whatever
      depends on the value of a sum, a difference or a comparison of
      times is proved there, in [F64Facts].
    - A raised exception is a value of [exn] ([F64.pyerr] for floats); a
      function that may raise returns [result] ([F64.res]).
    - The media engine is a collaborator: each [ffmpeg ... .run()] is
      recorded as an [engine_call], in call order.  In [F64] a run may
      also fail, which raises [ffmpeg.Error]; which runs fail is given by
      a function from calls to [bool]. *)

From Stdlib Require Import ZArith QArith Qround List Ascii String Bool Lia Lqa.
From Stdlib Require Import Sorted SpecFloat.
Import ListNotations.

Open Scope string_scope.
Open Scope Z_scope.

(** ** Exceptions and results *)

Inductive exn : Type :=
| ValueError (msg : string).

Inductive result (A : Type) : Type :=
| Ok (a : A)
| Raise (e : exn).

Arguments Ok {A} a.
Arguments Raise {A} e.

Definition bind {A B : Type} (r : result A) (k : A -> result B) : result B :=
  match r with
  | Ok a => k a
  | Raise e => Raise e
  end.

Notation "'do' x <- r ; k" := (bind r (fun x => k))
  (at level 10, x pattern, r at level 100, k at level 200).

(** ** Characters and strings *)

Module Str.

Definition code (c : ascii) : N := N_of_ascii c.

(** [\d] on code points below 256. *)
Definition is_digit (c : ascii) : bool :=
  (48 <=? code c)%N && (code c <=? 57)%N.

(** [str.isspace] on code points below 256: TAB LF VT FF CR, FS GS RS US,
    SPACE, NEL (0x85) and NBSP (0xa0). *)
Definition is_space (c : ascii) : bool :=
  let n := code c in
  ((9 <=? n)%N && (n <=? 13)%N) || ((28 <=? n)%N && (n <=? 32)%N)
  || (n =? 133)%N || (n =? 160)%N.

(** The longest prefix whose characters satisfy [p], and the rest. *)
Fixpoint span (p : ascii -> bool) (s : string) : string * string :=
  match s with
  | String c s' =>
      if p c then let (a, b) := span p s' in (String c a, b)
      else (EmptyString, s)
  | EmptyString => (EmptyString, EmptyString)
  end.

Fixpoint lstrip (s : string) : string :=
  match s with
  | String c s' => if is_space c then lstrip s' else s
  | EmptyString => EmptyString
  end.

(** Removes trailing white space: a character is kept when something
    that is kept follows it, or when it is not white space. *)
Fixpoint rstrip (s : string) : string :=
  match s with
  | String c s' =>
      match rstrip s' with
      | EmptyString => if is_space c then EmptyString else String c EmptyString
      | r => String c r
      end
  | EmptyString => EmptyString
  end.

(** [s.strip()] *)
Definition strip (s : string) : string := rstrip (lstrip s).

(** Truth value of a [str]: non-empty. *)
Definition truthy (s : string) : bool :=
  match s with EmptyString => false | _ => true end.

(** [s.startswith(p)] and what follows the prefix. *)
Fixpoint strip_prefix (p s : string) : option string :=
  match p with
  | EmptyString => Some s
  | String a p' =>
      match s with
      | String b s' => if Ascii.eqb a b then strip_prefix p' s' else None
      | EmptyString => None
      end
  end.

(** [s.find(sep)] as a split: the text before the first occurrence of
    [sep] and the text after it. *)
Fixpoint cut (sep s : string) : option (string * string) :=
  match strip_prefix sep s with
  | Some rest => Some (EmptyString, rest)
  | None =>
      match s with
      | String c s' =>
          match cut sep s' with
          | Some (a, b) => Some (String c a, b)
          | None => None
          end
      | EmptyString => None
      end
  end.

(** [sep in s] *)
Definition contains (sep s : string) : bool :=
  match cut sep s with Some _ => true | None => false end.

(** [s.split(sep)] for a non-empty [sep]; the recursion is on the
    length of what is left. *)
Fixpoint split_fuel (fuel : nat) (sep s : string) : list string :=
  match fuel with
  | O => [s]
  | S fuel' =>
      match cut sep s with
      | Some (a, b) => a :: split_fuel fuel' sep b
      | None => [s]
      end
  end.

Definition split (sep s : string) : list string :=
  split_fuel (String.length s) sep s.

(** [int(s)] for a string of decimal digits. *)
Definition digit_val (c : ascii) : Z := Z.of_N (code c) - 48.

Fixpoint int_acc (acc : Z) (s : string) : Z :=
  match s with
  | String c s' => int_acc (10 * acc + digit_val c) s'
  | EmptyString => acc
  end.

Definition int_of (s : string) : Z := int_acc 0 s.

(** [str(n)] for an [int]: the decimal digits, most significant first,
    after a minus sign when [n] is negative.  [fuel] bounds the number
    of digits. *)
Definition digit_char (d : Z) : ascii := ascii_of_N (Z.to_N (48 + d)).

Fixpoint digits_fuel (fuel : nat) (n : Z) : string :=
  match fuel with
  | O => EmptyString
  | S fuel' =>
      if n <? 10 then String (digit_char n) EmptyString
      else digits_fuel fuel' (n / 10) ++ String (digit_char (n mod 10)) EmptyString
  end.

Definition digits (n : Z) : string :=
  digits_fuel (S (Z.to_nat (Z.log2 n))) n.

Definition of_int (n : Z) : string :=
  if n <? 0 then String "-" (digits (- n)) else digits n.

Fixpoint zeros (n : nat) : string :=
  match n with
  | O => EmptyString
  | S n' => String "0" (zeros n')
  end.

(** [format(n, '0w')], the f-string field [{n:0w}]: the sign first, then
    zeros up to a total width of [w], then the digits. *)
Definition zfill (w : nat) (n : Z) : string :=
  if n <? 0 then
    let d := digits (- n) in
    String "-" (zeros (w - 1 - String.length d) ++ d)
  else
    let d := digits n in
    zeros (w - String.length d) ++ d.

End Str.

(** ** Numbers: the exact counterparts of the float operations used *)

Module Num.

Open Scope Q_scope.

(** [x > y], [x >= y], [x <= y] *)
Definition gt (x y : Q) : bool := negb (Qle_bool x y).
Definition ge (x y : Q) : bool := Qle_bool y x.
Definition le (x y : Q) : bool := Qle_bool x y.
Definition lt (x y : Q) : bool := negb (Qle_bool y x).

(** [int(x)]: truncation towards zero. *)
Definition int (x : Q) : Z :=
  if Qle_bool 0 x then Qfloor x else Qceiling x.

(** [x // y]: the floor of the quotient. *)
Definition floordiv (x y : Q) : Q := inject_Z (Qfloor (x / y)).

(** [x % y]: the remainder with the sign of [y]. *)
Definition mod_ (x y : Q) : Q := x - y * floordiv x y.

(** [round(x)]: to the nearest integer, ties to the even one. *)
Definition round (x : Q) : Z :=
  let f := Qfloor x in
  let r := x - inject_Z f in
  if lt r (1 # 2) then f
  else if gt r (1 # 2) then (f + 1)%Z
  else if Z.even f then f else (f + 1)%Z.

End Num.

(** ** Time parser *)

(** [re.match(r'(\d+):(\d+)(?::(\d+(?:\.\d+)?))?', s)]: the three
    groups, the third one [None] when the optional part did not take
    part in the match.  Every repetition is greedy and is followed by a
    character outside its class or by an optional part, so the first
    choice of the matcher is the match. *)
Definition seconds_group (r : string) : option string :=
  match Str.strip_prefix ":" r with
  | None => None
  | Some r1 =>
      let (si, r2) := Str.span Str.is_digit r1 in
      if Str.truthy si then
        match Str.strip_prefix "." r2 with
        | None => Some si
        | Some r3 =>
            let (sf, _) := Str.span Str.is_digit r3 in
            if Str.truthy sf then Some (si ++ "." ++ sf)%string else Some si
        end
      else None
  end.

Definition re_time (s : string) : option (string * string * option string) :=
  let (h, r1) := Str.span Str.is_digit s in
  if Str.truthy h then
    match Str.strip_prefix ":" r1 with
    | None => None
    | Some r2 =>
        let (m, r3) := Str.span Str.is_digit r2 in
        if Str.truthy m then Some (h, m, seconds_group r3) else None
    end
  else None.

(** [float(s)] for [s] of the form [digits] or [digits.digits]. *)
Definition float_of (s : string) : Q :=
  match Str.cut "." s with
  | None => inject_Z (Str.int_of s)
  | Some (i, f) =>
      (inject_Z (Str.int_of i)
       + inject_Z (Str.int_of f) / inject_Z (10 ^ Z.of_nat (String.length f)))%Q
  end.

Definition groups_default (d : string) (g : option string) : string :=
  match g with Some s => s | None => d end.

Definition parse_time (time_str : string) : result Q :=
  match re_time time_str with
  | None => Raise (ValueError ("Invalid time: " ++ time_str))
  | Some (h, m, s3) =>
      let s := groups_default "0" s3 in
      Ok (inject_Z (Str.int_of h * 3600 + Str.int_of m * 60) + float_of s)%Q
  end.

(** ** Range set validator *)

Definition TimeRange : Type := (Q * Q)%type.

(** The class [[\d:.]] *)
Definition is_time_char (c : ascii) : bool :=
  Str.is_digit c || Ascii.eqb c ":" || Ascii.eqb c ".".

(** [re.match(r'([\d:.]+)-([\d:.]+)', line)] *)
Definition re_range (line : string) : option (string * string) :=
  let (g1, r1) := Str.span is_time_char line in
  if Str.truthy g1 then
    match Str.strip_prefix "-" r1 with
    | None => None
    | Some r2 =>
        let (g2, _) := Str.span is_time_char r2 in
        if Str.truthy g2 then Some (g1, g2) else None
    end
  else None.

(** One iteration of the first loop: the range of a line. *)
Definition parse_range_line (line : string) : result TimeRange :=
  match re_range line with
  | None => Raise (ValueError ("Invalid time range: " ++ line))
  | Some (g1, g2) =>
      do start <- parse_time g1;
      do end_ <- parse_time g2;
      if Num.ge start end_
      then Raise (ValueError ("Start time >= end time: " ++ line))
      else Ok (start, end_)
  end.

(** The first loop: [ranges] in file order, or the first exception. *)
Fixpoint parse_range_lines (lines : list string) : result (list TimeRange) :=
  match lines with
  | [] => Ok []
  | line :: rest =>
      do r <- parse_range_line line;
      do rs <- parse_range_lines rest;
      Ok (r :: rs)
  end.

(** The second loop: [ranges[i-1][1] > ranges[i][0]] for [i] from 1. *)
Fixpoint check_order (ranges : list TimeRange) : result unit :=
  match ranges with
  | prev :: ((next :: _) as rest) =>
      if Num.gt (snd prev) (fst next)
      then Raise (ValueError "Time ranges are not sorted or overlap")
      else check_order rest
  | _ => Ok tt
  end.

(** [[line.strip() for line in f if line.strip()]]; [file_lines] are
    the lines the file yields when iterated. *)
Definition stripped_lines (file_lines : list string) : list string :=
  map Str.strip (filter (fun line => Str.truthy (Str.strip line)) file_lines).

Definition parse_time_ranges_file (file_lines : list string)
  : result (list TimeRange) :=
  let lines := stripped_lines file_lines in
  do ranges <- parse_range_lines lines;
  do _ <- check_order ranges;
  Ok ranges.

(** ** Segment planner *)

Definition duration (r : TimeRange) : Q := (snd r - fst r)%Q.

(** [min(it)]: the first value, replaced by each later one that is
    smaller; [ValueError] on an empty iterable (the wording of its
    message varies between interpreter versions). *)
Definition py_min (xs : list Q) : result Q :=
  match xs with
  | [] => Raise (ValueError "min() arg is an empty sequence")
  | x :: rest => Ok (fold_left (fun m y => if Num.lt y m then y else m) rest x)
  end.

Definition get_min_duration (ranges : list TimeRange) : result Q :=
  py_min (map duration ranges).

(** What one [ffmpeg ... .run()] is asked to do.  A segment is cut from
    [ss] for [t] seconds into [segment_<idx>.mp4], either by stream copy
    or encoded with a fade-in at 0 and a fade-out at [fade_out_st], both
    of length [fade_d], on video and audio alike. *)
Inductive engine_call : Type :=
| CutFade (idx : nat) (ss t : Q) (fade_d fade_out_st : Q)
| CutCopy (idx : nat) (ss t : Q)
| Concat (segment_files : list nat) (output_file : string)
| MuxSubtitle (video_file : string) (srt : list string) (output_file : string).

(** The body of the loop of [cut_and_fade_segments]. *)
Definition cut_segment (overlap_time : Q) (idx : nat) (r : TimeRange)
  : engine_call :=
  let (start, end_) := r in
  let duration := (end_ - start)%Q in
  if Num.gt overlap_time 0
  then CutFade idx start duration overlap_time (duration - overlap_time)%Q
  else CutCopy idx start duration.

Fixpoint cut_from (overlap_time : Q) (idx : nat) (ranges : list TimeRange)
  : list engine_call :=
  match ranges with
  | [] => []
  | r :: rest => cut_segment overlap_time idx r :: cut_from overlap_time (S idx) rest
  end.

(** The calls made, in order; [segment_files] are the indices [0..n-1]. *)
Definition cut_and_fade_segments (ranges : list TimeRange) (overlap_time : Q)
  : list engine_call * list nat :=
  (cut_from overlap_time 0 ranges, seq 0 (List.length ranges)).


(** ** Subtitle re-timer *)

(** [(\d{2}):(\d{2}):(\d{2}),(\d{3})] at the start of [s]: the four
    groups and what follows the match. *)
Definition digits_n (n : nat) (s : string) : option (string * string) :=
  let g := String.substring 0 n s in
  if (String.length g =? n)%nat && forallb Str.is_digit (list_ascii_of_string g)
  then Some (g, String.substring n (String.length s - n) s)
  else None.

Definition pattern_at (s : string)
  : option ((string * string * string * string) * string) :=
  match digits_n 2 s with
  | None => None
  | Some (h, r1) =>
  match Str.strip_prefix ":" r1 with
  | None => None
  | Some r2 =>
  match digits_n 2 r2 with
  | None => None
  | Some (m, r3) =>
  match Str.strip_prefix ":" r3 with
  | None => None
  | Some r4 =>
  match digits_n 2 r4 with
  | None => None
  | Some (sec, r5) =>
  match Str.strip_prefix "," r5 with
  | None => None
  | Some r6 =>
  match digits_n 3 r6 with
  | None => None
  | Some (ms, r7) => Some ((h, m, sec, ms), r7)
  end end end end end end end.

(** [pattern.findall(s)]: the matches from left to right, each search
    resuming where the previous match ended. *)
Fixpoint findall_fuel (fuel : nat) (s : string)
  : list (string * string * string * string) :=
  match fuel with
  | O => []
  | S fuel' =>
      match pattern_at s with
      | Some (g, rest) => g :: findall_fuel fuel' rest
      | None =>
          match s with
          | String _ s' => findall_fuel fuel' s'
          | EmptyString => []
          end
      end
  end.

Definition findall (s : string) : list (string * string * string * string) :=
  findall_fuel (String.length s) s.

Definition srt_time_to_sec (g : string * string * string * string) : Q :=
  let '(h, m, s, ms) := g in
  (inject_Z (Str.int_of h * 3600 + Str.int_of m * 60 + Str.int_of s)
   + inject_Z (Str.int_of ms) / 1000)%Q.

Definition sec_to_srt_time (sec : Q) : string :=
  let h := Num.int (Num.floordiv sec 3600) in
  let m := Num.int (Num.floordiv (Num.mod_ sec 3600) 60) in
  let s := Num.int (Num.mod_ sec 60) in
  let ms := Num.int (inject_Z (Num.round ((sec - inject_Z (Num.int sec)) * 1000)%Q)) in
  Str.zfill 2 h ++ ":" ++ Str.zfill 2 m ++ ":" ++ Str.zfill 2 s
  ++ "," ++ Str.zfill 3 ms.

Definition newline : string := String (ascii_of_nat 10) EmptyString.

(** [sum(xs)]: from the left, starting at 0. *)
Definition py_sum (xs : list Q) : Q := fold_left Qplus xs 0%Q.

(** The offset of segment [seg_idx]:
    [sum(r[1]-r[0] for r in ranges[:seg_idx])]. *)
Definition seg_offset (ranges : list TimeRange) (seg_idx : nat) : Q :=
  py_sum (map duration (firstn seg_idx ranges)).

(** The lines [srt_lines[j]] from [j = i+1] up to the first blank one. *)
Fixpoint text_lines (following : list string) : list string :=
  match following with
  | l :: rest => if Str.truthy (Str.strip l) then l :: text_lines rest else []
  | [] => []
  end.

(** Ghost record of one emitted cue: the segment and the line of the
    source cue, the times handed to the formatter and the text lines. *)
Record emission : Type := mkEmission {
  em_seg : nat;
  em_line : nat;
  em_start : Q;
  em_end : Q;
  em_text : list string
}.

(** The variables the two loops update; [log] is ghost. *)
Record retimer_state : Type := mkState {
  new_srt : list string;
  idx : Z;
  log : list emission
}.

(** The times of the cue that starts at [line], when [line] is one:
    [Ok None] when it is not, and the [ValueError] of the unpacking
    [t1, t2 = line.split('-->')] when there are more than two parts. *)
Definition cue_times (line : string) : result (option (Q * Q)) :=
  if Str.contains "-->" line then
    match Str.split "-->" line with
    | [t1; t2] =>
        match findall t1, findall t2 with
        | g1 :: _, g2 :: _ => Ok (Some (srt_time_to_sec g1, srt_time_to_sec g2))
        | _, _ => Ok None
        end
    | _ => Raise (ValueError "too many values to unpack (expected 2)")
    end
  else Ok None.

(** The block appended for a cue. *)
Definition cue_block (idx : Z) (new_st new_et : string) (text : list string)
  : list string :=
  [Str.of_int idx ++ newline; new_st ++ " --> " ++ new_et ++ newline]
  ++ text ++ [newline].

(** The inner loop from line [i] on; [lines] is [srt_lines[i:]]. *)
Fixpoint scan_lines (seg_idx : nat) (start end_ offset : Q)
    (i : nat) (lines : list string) (st : retimer_state)
  : result retimer_state :=
  match lines with
  | [] => Ok st
  | line :: following =>
      do c <- cue_times line;
      let st' :=
        match c with
        | Some (s, e) =>
            if Num.ge s start && Num.le e end_ then
              let new_st := sec_to_srt_time (s - start + offset)%Q in
              let new_et := sec_to_srt_time (e - start + offset)%Q in
              mkState
                (new_srt st ++ cue_block (idx st) new_st new_et (text_lines following))
                (idx st + 1)
                (log st ++ [mkEmission seg_idx i (s - start + offset)%Q
                                       (e - start + offset)%Q
                                       (text_lines following)])
            else st
        | None => st
        end in
      scan_lines seg_idx start end_ offset (S i) following st'
  end.

(** The outer loop from segment [seg_idx] on; [todo] is
    [ranges[seg_idx:]]. *)
Fixpoint scan_ranges (ranges : list TimeRange) (srt_lines : list string)
    (seg_idx : nat) (todo : list TimeRange) (st : retimer_state)
  : result retimer_state :=
  match todo with
  | [] => Ok st
  | (start, end_) :: rest =>
      do st' <- scan_lines seg_idx start end_ (seg_offset ranges seg_idx)
                  0 srt_lines st;
      scan_ranges ranges srt_lines (S seg_idx) rest st'
  end.

Definition retime (srt_lines : list string) (ranges : list TimeRange)
  : result retimer_state :=
  scan_ranges ranges srt_lines 0 ranges (mkState [] 1 []).

(** The lines written to [output_srt]. *)
Definition adjust_subtitle (srt_lines : list string) (ranges : list TimeRange)
  : result (list string) :=
  do st <- retime srt_lines ranges;
  Ok (new_srt st).

(** ** Orchestrator *)

Record Args : Type := mkArgs {
  video_file : string;
  (** the lines of the file named by [args.time_ranges_file] *)
  time_ranges_file : list string;
  (** [os.path.splitext(os.path.basename(args.time_ranges_file))[0]] *)
  ranges_base : string;
  output : option string;
  overlap : Q;
  (** the lines of the file named by [args.subtitle], when given *)
  subtitle : option (list string)
}.

(** What [print] writes: the range-file error with the text of the
    exception, the fade-too-long message, the completion message. *)
Inductive message : Type :=
| MsgRangeFileError (e : string)
| MsgFadeTooLong
| MsgDone (output_file : string).

Inductive ending : Type :=
| Exit (code : Z)
| Uncaught (e : exn)
| Return.

Record run : Type := mkRun {
  calls : list engine_call;
  printed : list message;
  how : ending
}.

Definition output_name (args : Args) : string :=
  match output args with
  | Some o => if Str.truthy o then o else ranges_base args ++ ".mp4"
  | None => ranges_base args ++ ".mp4"
  end.

(** [main] from the fade check on, for the parsed [ranges] and their
    minimum duration. *)
Definition assemble (args : Args) (ranges : list TimeRange) : run :=
  let output_file := output_name args in
  let (cuts, segment_files) := cut_and_fade_segments ranges (overlap args) in
  let made := (cuts ++ [Concat segment_files output_file])%list in
  match subtitle args with
  | None => mkRun made [MsgDone output_file] Return
  | Some srt_lines =>
      match adjust_subtitle srt_lines ranges with
      | Raise e => mkRun made [] (Uncaught e)
      | Ok temp_srt =>
          mkRun (made ++ [MuxSubtitle output_file temp_srt "mux.mp4"])%list
                [MsgDone output_file] Return
      end
  end.

Definition main (args : Args) : run :=
  match parse_time_ranges_file (time_ranges_file args) with
  | Raise (ValueError e) => mkRun [] [MsgRangeFileError e] (Exit 1)
  | Ok ranges =>
      match get_min_duration ranges with
      | Raise e => mkRun [] [] (Uncaught e)
      | Ok min_dur =>
          if Num.gt (overlap args) min_dur
          then mkRun [] [MsgFadeTooLong] (Exit 1)
          else assemble args ranges
      end
  end.

(** * Vocabulary of the properties *)

Fixpoint all_digits (s : string) : bool :=
  match s with
  | String c s' => Str.is_digit c && all_digits s'
  | EmptyString => true
  end.

Definition starts_with_digit (s : string) : bool :=
  match s with
  | String c _ => Str.is_digit c
  | EmptyString => false
  end.

(** The start and end times a range line denotes, when its two time
    strings are found and parse. *)
Definition line_times (line : string) : option TimeRange :=
  match re_range line with
  | Some (g1, g2) =>
      match parse_time g1, parse_time g2 with
      | Ok s, Ok e => Some (s, e)
      | _, _ => None
      end
  | None => None
  end.

(** Every range ends no later than the next one starts. *)
Fixpoint ordered (ranges : list TimeRange) : Prop :=
  match ranges with
  | prev :: ((next :: _) as rest) => (snd prev <= fst next)%Q /\ ordered rest
  | _ => True
  end.

Definition proper (r : TimeRange) : Prop := (fst r < snd r)%Q.


(** A source cue: the index of its time line in the subtitle file, its
    times and its text lines. *)
Record cue : Type := mkCue {
  cue_line : nat;
  cue_start : Q;
  cue_end : Q;
  cue_text : list string
}.

(** The cues of [srt_lines[i:]], in file order. *)
Fixpoint cues_from (i : nat) (lines : list string) : list cue :=
  match lines with
  | [] => []
  | line :: following =>
      match cue_times line with
      | Ok (Some (s, e)) =>
          mkCue i s e (text_lines following) :: cues_from (S i) following
      | _ => cues_from (S i) following
      end
  end.

Definition cues (srt_lines : list string) : list cue := cues_from 0 srt_lines.

(** No line with an arrow splits into more than two parts. *)
Definition arrows_ok (srt_lines : list string) : bool :=
  forallb (fun l => match cue_times l with Ok _ => true | Raise _ => false end)
          srt_lines.

(** The cue lies within the range, both ends included. *)
Definition inside (r : TimeRange) (c : cue) : bool :=
  Num.ge (cue_start c) (fst r) && Num.le (cue_end c) (snd r).

(** The cue moved from segment [seg] of the source to the output. *)
Definition shifted (seg : nat) (start offset : Q) (c : cue) : emission :=
  mkEmission seg (cue_line c)
             (cue_start c - start + offset)%Q (cue_end c - start + offset)%Q
             (cue_text c).

(** One block of the output per emission, numbered from [n]. *)
Fixpoint render (n : Z) (es : list emission) : list string :=
  match es with
  | [] => []
  | e :: rest =>
      (cue_block n (sec_to_srt_time (em_start e)) (sec_to_srt_time (em_end e))
                 (em_text e)
       ++ render (n + 1) rest)%list
  end.

(** The cues of one segment, and of the segments [todo] numbered from
    [seg], in the order of the scan. *)
Definition hits (seg : nat) (r : TimeRange) (offset : Q) (cs : list cue)
  : list emission :=
  map (shifted seg (fst r) offset) (filter (inside r) cs).

Fixpoint all_hits (ranges : list TimeRange) (seg : nat) (todo : list TimeRange)
    (cs : list cue) : list emission :=
  match todo with
  | [] => []
  | r :: rest =>
      (hits seg r (seg_offset ranges seg) cs ++ all_hits ranges (S seg) rest cs)%list
  end.

Definition emitted (ranges : list TimeRange) (srt_lines : list string)
  : list emission :=
  all_hits ranges 0 ranges (cues srt_lines).

(** How many of [es] come from the cue at line [i]. *)
Definition times_emitted (i : nat) (es : list emission) : nat :=
  List.length (filter (fun e => Nat.eqb (em_line e) i) es).

(** The times of the cue whose time line is line [i] of the file. *)
Definition cue_at (srt_lines : list string) (i : nat) : option (Q * Q) :=
  match nth_error srt_lines i with
  | Some line =>
      match cue_times line with
      | Ok (Some t) => Some t
      | _ => None
      end
  | None => None
  end.

(** The range holds the span from [s] to [e], both ends included. *)
Definition holds (s e : Q) (r : TimeRange) : bool :=
  Num.ge s (fst r) && Num.le e (snd r).

(** The ten characters of [\d]. *)
Definition digit_chars : list ascii :=
  ["0"; "1"; "2"; "3"; "4"; "5"; "6"; "7"; "8"; "9"]%char.

Definition str2 (a b : ascii) : string := String a (String b EmptyString).
Definition str3 (a b c : ascii) : string := String a (str2 b c).

(** Formatting the number a digit string denotes, in a field as wide
    as the string, gives the string back; the number fits the width. *)
Definition field_ok (w : nat) (s : string) : bool :=
  String.eqb (Str.zfill w (Str.int_of s)) s
  && (0 <=? Str.int_of s)%Z && (Str.int_of s <? 10 ^ Z.of_nat w)%Z.

(** The form [HH:MM:SS,mmm]: two, two, two and three digits. *)
Definition srt_form (t : string) : Prop :=
  exists hh mm ss mmm : string,
    t = hh ++ ":" ++ mm ++ ":" ++ ss ++ "," ++ mmm
    /\ String.length hh = 2%nat /\ String.length mm = 2%nat
    /\ String.length ss = 2%nat /\ String.length mmm = 3%nat
    /\ all_digits hh = true /\ all_digits mm = true
    /\ all_digits ss = true /\ all_digits mmm = true.


(** Every character of [s] satisfies [p]; the first one does. *)
Fixpoint all_chars (p : ascii -> bool) (s : string) : bool :=
  match s with
  | String c s' => p c && all_chars p s'
  | EmptyString => true
  end.

Definition starts_with (p : ascii -> bool) (s : string) : bool :=
  match s with
  | String c _ => p c
  | EmptyString => false
  end.

(** A line with white space added on both sides. *)
Inductive padded (l : string) : string -> Prop :=
| padded_intro (lead trail : string) :
    all_chars Str.is_space lead = true -> all_chars Str.is_space trail = true ->
    padded l (lead ++ l ++ trail).

(** The duration a cut call asks the engine for. *)
Definition call_duration (c : engine_call) : Q :=
  match c with
  | CutFade _ _ t _ _ => t
  | CutCopy _ _ t => t
  | _ => 0
  end.


(** The exception of [t1, t2 = line.split('-->')] on more than two parts. *)
Definition unpack_error : exn :=
  ValueError "too many values to unpack (expected 2)".

(** The order of the output: by segment, then by line of the source. *)
Definition em_before (a b : emission) : Prop :=
  (em_seg a < em_seg b)%nat
  \/ (em_seg a = em_seg b /\ (em_line a < em_line b)%nat).

(** * The same functions on binary64 floats

    The definitions above read a Python [float] as the rational it would
    be without rounding.  The definitions of this module round as the
    code does: a [float] is a [spec_float] of precision 53, every
    operation is rounded to nearest, ties to even, and comparisons are
    those of the floats, so that a time read from text and a difference
    of two times have the values the interpreter computes.  Exceptions
    other than [ValueError] and the failure of an engine run are part of
    it. *)

Module F64.

#[local] Open Scope string_scope.
#[local] Open Scope Z_scope.

Definition float : Type := spec_float.

(** What one [ffmpeg ... .run()] is asked to do, with the numbers the
    code passes. *)
Inductive engine_call : Type :=
| CutFade (idx : nat) (ss t : float) (fade_d fade_out_st : float)
| CutCopy (idx : nat) (ss t : float)
| Concat (segment_files : list nat) (output_file : string)
| MuxSubtitle (video_file : string) (srt : list string) (output_file : string).

(** The exceptions that can leave these functions: [ValueError] and
    [OverflowError] with their text, and the [ffmpeg.Error] of a run
    that ends with a status other than 0. *)
Inductive pyerr : Type :=
| ValueErr (msg : string)
| OverflowErr (msg : string)
| EngineErr (failed : engine_call).

(** [str(e)] for the two built-in exceptions. *)
Definition err_text (e : pyerr) : string :=
  match e with
  | ValueErr msg | OverflowErr msg => msg
  | EngineErr _ => "ffmpeg error (see stderr output for detail)"
  end.

Inductive res (A : Type) : Type :=
| Ret (a : A)
| Err (e : pyerr).
Arguments Ret {A} a.
Arguments Err {A} e.

Definition and_then {A B : Type} (r : res A) (k : A -> res B) : res B :=
  match r with
  | Ret a => k a
  | Err e => Err e
  end.

Notation "'let*' x := r 'in' k" := (and_then r (fun x => k))
  (at level 10, x pattern, r at level 100, k at level 200).

Definition prec : Z := 53.
Definition emax : Z := 1024.

Definition add : float -> float -> float := SFadd prec emax.
Definition sub : float -> float -> float := SFsub prec emax.
Definition mul : float -> float -> float := SFmul prec emax.
Definition div : float -> float -> float := SFdiv prec emax.
Definition lt (x y : float) : bool := SFltb x y.
Definition le (x y : float) : bool := SFleb x y.
Definition gt (x y : float) : bool := SFltb y x.
Definition ge (x y : float) : bool := SFleb y x.

(** The float nearest to an [int], ties to even. *)
Definition nearest (n : Z) : float := binary_normalize prec emax n 0 false.

(** The conversion of an [int] operand of a float operation. *)
Definition of_int (n : Z) : res float :=
  match nearest n with
  | S754_infinity _ => Err (OverflowErr "int too large to convert to float")
  | f => Ret f
  end.

(** The float nearest to [n / d] for [0 <= n] and [0 < d]. *)
Definition nearest_ratio (n d : Z) : float :=
  match n, d with
  | Zpos pn, Zpos pd => div (S754_finite false pn 0) (S754_finite false pd 0)
  | _, _ => S754_zero false
  end.

Definition float_of (s : string) : float :=
  match Str.cut "." s with
  | None => nearest_ratio (Str.int_of s) 1
  | Some (i, f) =>
      nearest_ratio (Str.int_of (i ++ f)) (10 ^ Z.of_nat (String.length f))
  end.

(** [int(s)] for a digit string, with the limit of 4300 digits that
    the interpreter sets by default. *)
Definition int_of (s : string) : res Z :=
  if (4300 <? String.length s)%nat
  then Err (ValueErr
              ("Exceeds the limit (4300 digits) for integer string conversion: value has "
               ++ Str.of_int (Z.of_nat (String.length s))
               ++ " digits; use sys.set_int_max_str_digits() to increase the limit"))
  else Ret (Str.int_of s).

Definition parse_time (time_str : string) : res float :=
  match re_time time_str with
  | None => Err (ValueErr ("Invalid time: " ++ time_str))
  | Some (h, m, s3) =>
      let s := groups_default "0" s3 in
      let* hh := int_of h in
      let* mm := int_of m in
      let sec := float_of s in
      let* whole := of_int (hh * 3600 + mm * 60) in
      Ret (add whole sec)
  end.

(** ** Integer parts and remainders of floats *)

(** The rational a finite float denotes. *)
Definition exact (f : float) : option Q :=
  match f with
  | S754_zero _ => Some 0%Q
  | S754_finite s m e =>
      let a := (if s then Zneg m else Zpos m) in
      Some (if 0 <=? e then inject_Z (a * 2 ^ e)
            else Qmake a (Z.to_pos (2 ^ (- e))))%Q
  | _ => None
  end.

(** The float nearest to a rational, ties to even. *)
Definition of_Q (q : Q) : float :=
  match Qnum q with
  | Z0 => S754_zero false
  | Zpos n => nearest_ratio (Zpos n) (Zpos (Qden q))
  | Zneg n => SFopp (nearest_ratio (Zpos n) (Zpos (Qden q)))
  end.

Definition zero : float := S754_zero false.
Definition sign_bit (f : float) : bool :=
  match f with
  | S754_zero s | S754_infinity s | S754_finite s _ _ => s
  | S754_nan => false
  end.

(** [x != 0.0] *)
Definition nonzero (f : float) : bool := negb (SFeqb f zero).

(** C's [fmod]: the exact remainder of the truncated quotient, with
    the sign of [x]. *)
Definition fmod (x y : float) : float :=
  match x, y with
  | S754_nan, _ | _, S754_nan | S754_infinity _, _ | _, S754_zero _ => S754_nan
  | _, S754_infinity _ => x
  | _, _ =>
      match exact x, exact y with
      | Some qx, Some qy =>
          let r := (qx - qy * inject_Z (Num.int (qx / qy)))%Q in
          if Qeq_bool r 0 then S754_zero (sign_bit x) else of_Q r
      | _, _ => S754_nan
      end
  end.

(** C's [floor]. *)
Definition floor (x : float) : float :=
  match x with
  | S754_finite _ _ _ =>
      match exact x with
      | Some q =>
          match Qfloor q with
          | Z0 => S754_zero (sign_bit x)
          | n => nearest n
          end
      | None => x
      end
  | _ => x
  end.

(** The remainder and the quotient of [_float_div_mod]. *)
Definition py_divmod (vx wx : float) : float * float :=
  let mod0 := fmod vx wx in
  let div0 := div (sub vx mod0) wx in
  let '(md, dv) :=
    if nonzero mod0 then
      if negb (Bool.eqb (lt wx zero) (lt mod0 zero))
      then (add mod0 wx, sub div0 (nearest 1))
      else (mod0, div0)
    else (S754_zero (sign_bit wx), div0) in
  let floordiv :=
    if nonzero dv then
      let f := floor dv in
      if gt (sub dv f) (nearest_ratio 1 2) then add f (nearest 1) else f
    else S754_zero (sign_bit (div vx wx)) in
  (floordiv, md).

(** [vx // wx] and [vx % wx] for a divisor that is not zero. *)
Definition floordiv (vx wx : float) : float := fst (py_divmod vx wx).
Definition mod_ (vx wx : float) : float := snd (py_divmod vx wx).

(** [int(x)] *)
Definition int (x : float) : res Z :=
  match x with
  | S754_nan => Err (ValueErr "cannot convert float NaN to integer")
  | S754_infinity _ => Err (OverflowErr "cannot convert float infinity to integer")
  | _ => match exact x with
         | Some q => Ret (Num.int q)
         | None => Ret 0
         end
  end.

(** [round(x)] *)
Definition round (x : float) : res Z :=
  match x with
  | S754_nan => Err (ValueErr "cannot convert float NaN to integer")
  | S754_infinity _ => Err (OverflowErr "cannot convert float infinity to integer")
  | _ => match exact x with
         | Some q => Ret (Num.round q)
         | None => Ret 0
         end
  end.

Definition srt_time_to_sec (g : string * string * string * string) : float :=
  let '(h, m, s, ms) := g in
  add (nearest (Str.int_of h * 3600 + Str.int_of m * 60 + Str.int_of s))
      (div (nearest (Str.int_of ms)) (nearest 1000)).

Definition sec_to_srt_time (sec : float) : res string :=
  let* h := int (floordiv sec (nearest 3600)) in
  let* m := int (floordiv (mod_ sec (nearest 3600)) (nearest 60)) in
  let* s := int (mod_ sec (nearest 60)) in
  let* whole := int sec in
  let* ms := round (mul (sub sec (nearest whole)) (nearest 1000)) in
  Ret (Str.zfill 2 h ++ ":" ++ Str.zfill 2 m ++ ":" ++ Str.zfill 2 s
       ++ "," ++ Str.zfill 3 ms).

(** ** Range set validator *)

Definition TimeRange : Type := (float * float)%type.

Definition parse_range_line (line : string) : res TimeRange :=
  match re_range line with
  | None => Err (ValueErr ("Invalid time range: " ++ line))
  | Some (g1, g2) =>
      let* start := parse_time g1 in
      let* end_ := parse_time g2 in
      if ge start end_
      then Err (ValueErr ("Start time >= end time: " ++ line))
      else Ret (start, end_)
  end.

Fixpoint parse_range_lines (lines : list string) : res (list TimeRange) :=
  match lines with
  | [] => Ret []
  | line :: rest =>
      let* r := parse_range_line line in
      let* rs := parse_range_lines rest in
      Ret (r :: rs)
  end.

Fixpoint check_order (ranges : list TimeRange) : res unit :=
  match ranges with
  | prev :: ((next :: _) as rest) =>
      if gt (snd prev) (fst next)
      then Err (ValueErr "Time ranges are not sorted or overlap")
      else check_order rest
  | _ => Ret tt
  end.

Definition parse_time_ranges_file (file_lines : list string)
  : res (list TimeRange) :=
  let lines := stripped_lines file_lines in
  let* ranges := parse_range_lines lines in
  let* _ := check_order ranges in
  Ret ranges.

(** ** Minimum duration *)

Definition py_min (xs : list float) : res float :=
  match xs with
  | [] => Err (ValueErr "min() arg is an empty sequence")
  | x :: rest => Ret (fold_left (fun m y => if lt y m then y else m) rest x)
  end.

Definition get_min_duration (ranges : list TimeRange) : res float :=
  py_min (map (fun r => sub (snd r) (fst r)) ranges).

(** ** Subtitle re-timer *)

(** [sum(r[1]-r[0] for r in ranges[:seg_idx])]: from the left, from 0. *)
Definition seg_offset (ranges : list TimeRange) (seg_idx : nat) : float :=
  fold_left add (map (fun r => sub (snd r) (fst r)) (firstn seg_idx ranges)) zero.

(** Ghost record of one emitted cue, as in the exact model. *)
Record emission : Type := mkEmission {
  em_seg : nat;
  em_line : nat;
  em_start : float;
  em_end : float;
  em_text : list string
}.

Record retimer_state : Type := mkState {
  new_srt : list string;
  idx : Z;
  log : list emission
}.

Definition cue_times (line : string) : res (option (float * float)) :=
  if Str.contains "-->" line then
    match Str.split "-->" line with
    | [t1; t2] =>
        match findall t1, findall t2 with
        | g1 :: _, g2 :: _ => Ret (Some (srt_time_to_sec g1, srt_time_to_sec g2))
        | _, _ => Ret None
        end
    | _ => Err (ValueErr "too many values to unpack (expected 2)")
    end
  else Ret None.

(** One iteration of the inner loop, on line [i] and the lines after it. *)
Definition scan_line (seg_idx : nat) (start end_ offset : float)
    (i : nat) (line : string) (following : list string) (st : retimer_state)
  : res retimer_state :=
  let* c := cue_times line in
  match c with
  | Some (s, e) =>
      if ge s start && le e end_ then
        let* new_st := sec_to_srt_time (add (sub s start) offset) in
        let* new_et := sec_to_srt_time (add (sub e start) offset) in
        Ret (mkState
               (new_srt st ++ cue_block (idx st) new_st new_et (text_lines following))
               (idx st + 1)
               (log st ++ [mkEmission seg_idx i (add (sub s start) offset)
                                      (add (sub e start) offset)
                                      (text_lines following)]))
      else Ret st
  | None => Ret st
  end.

Fixpoint scan_lines (seg_idx : nat) (start end_ offset : float)
    (i : nat) (lines : list string) (st : retimer_state)
  : res retimer_state :=
  match lines with
  | [] => Ret st
  | line :: following =>
      let* st' := scan_line seg_idx start end_ offset i line following st in
      scan_lines seg_idx start end_ offset (S i) following st'
  end.

Fixpoint scan_ranges (ranges : list TimeRange) (srt_lines : list string)
    (seg_idx : nat) (todo : list TimeRange) (st : retimer_state)
  : res retimer_state :=
  match todo with
  | [] => Ret st
  | (start, end_) :: rest =>
      let* st' := scan_lines seg_idx start end_ (seg_offset ranges seg_idx)
                    0 srt_lines st in
      scan_ranges ranges srt_lines (S seg_idx) rest st'
  end.

Definition retime (srt_lines : list string) (ranges : list TimeRange)
  : res retimer_state :=
  scan_ranges ranges srt_lines 0 ranges (mkState [] 1 []).

Definition adjust_subtitle (srt_lines : list string) (ranges : list TimeRange)
  : res (list string) :=
  let* st := retime srt_lines ranges in
  Ret (new_srt st).

(** ** Segment cutter and orchestrator *)

(** The request of one turn of the loop of [cut_and_fade_segments]. *)
Definition cut_segment (overlap_time : float) (idx : nat) (r : TimeRange)
  : engine_call :=
  let (start, end_) := r in
  let duration := sub end_ start in
  if gt overlap_time zero
  then CutFade idx start duration overlap_time (sub duration overlap_time)
  else CutCopy idx start duration.

(** The loop; [engine c] tells whether the run of [c] ends with status
    0.  A run that fails is the last one. *)
Fixpoint cut_from (engine : engine_call -> bool) (overlap_time : float)
    (idx : nat) (ranges : list TimeRange) : list engine_call * option pyerr :=
  match ranges with
  | [] => ([], None)
  | r :: rest =>
      let c := cut_segment overlap_time idx r in
      if engine c then
        let (cs, e) := cut_from engine overlap_time (S idx) rest in (c :: cs, e)
      else ([c], Some (EngineErr c))
  end.

Record Args : Type := mkArgs {
  video_file : string;
  time_ranges_file : list string;
  ranges_base : string;
  output : option string;
  (** [type=float]: any float, a nan and the infinities included *)
  overlap : float;
  subtitle : option (list string)
}.

Inductive message : Type :=
| MsgRangeFileError (e : string)
| MsgFadeTooLong
| MsgDone (output_file : string).

Inductive ending : Type :=
| Exit (code : Z)
| Uncaught (e : pyerr)
| Return.

Record run : Type := mkRun {
  calls : list engine_call;
  printed : list message;
  how : ending
}.

Definition output_name (args : Args) : string :=
  match output args with
  | Some o => if Str.truthy o then o else ranges_base args ++ ".mp4"
  | None => ranges_base args ++ ".mp4"
  end.

(** [main] after the fade check. *)
Definition assemble (engine : engine_call -> bool) (args : Args)
    (ranges : list TimeRange) : run :=
  let output_file := output_name args in
  match cut_from engine (overlap args) 0 ranges with
  | (cuts, Some e) => mkRun cuts [] (Uncaught e)
  | (cuts, None) =>
      let concat := Concat (seq 0 (List.length ranges)) output_file in
      let made := (cuts ++ [concat])%list in
      if negb (engine concat) then mkRun made [] (Uncaught (EngineErr concat))
      else
        match subtitle args with
        | None => mkRun made [MsgDone output_file] Return
        | Some srt_lines =>
            match adjust_subtitle srt_lines ranges with
            | Err e => mkRun made [] (Uncaught e)
            | Ret temp_srt =>
                let mux := MuxSubtitle output_file temp_srt "mux.mp4" in
                if engine mux
                then mkRun (made ++ [mux])%list [MsgDone output_file] Return
                else mkRun (made ++ [mux])%list [] (Uncaught (EngineErr mux))
            end
        end
  end.

(** [except Exception] takes every exception of the parser. *)
Definition main (engine : engine_call -> bool) (args : Args) : run :=
  match parse_time_ranges_file (time_ranges_file args) with
  | Err e => mkRun [] [MsgRangeFileError (err_text e)] (Exit 1)
  | Ret ranges =>
      match get_min_duration ranges with
      | Err e => mkRun [] [] (Uncaught e)
      | Ret min_dur =>
          if gt (overlap args) min_dur
          then mkRun [] [MsgFadeTooLong] (Exit 1)
          else assemble engine args ranges
      end
  end.

(** The run that the fade check ends. *)
Definition fade_too_long : run := mkRun [] [MsgFadeTooLong] (Exit 1).

(** ** Vocabulary of the properties *)

Record cue : Type := mkCue {
  cue_line : nat;
  cue_start : float;
  cue_end : float;
  cue_text : list string
}.

Fixpoint cues_from (i : nat) (lines : list string) : list cue :=
  match lines with
  | [] => []
  | line :: following =>
      match cue_times line with
      | Ret (Some (s, e)) =>
          mkCue i s e (text_lines following) :: cues_from (S i) following
      | _ => cues_from (S i) following
      end
  end.

(** The times of the cue whose time line is line [i] of the file. *)
Definition cue_at (srt_lines : list string) (i : nat) : option (float * float) :=
  match nth_error srt_lines i with
  | Some line =>
      match cue_times line with
      | Ret (Some t) => Some t
      | _ => None
      end
  | None => None
  end.

(** [s >= start and e <= end], as the loop tests it. *)
Definition holds (s e : float) (r : TimeRange) : bool :=
  ge s (fst r) && le e (snd r).

Definition shifted (seg : nat) (start offset : float) (c : cue) : emission :=
  mkEmission seg (cue_line c)
             (add (sub (cue_start c) start) offset)
             (add (sub (cue_end c) start) offset)
             (cue_text c).

Definition hits (seg : nat) (r : TimeRange) (offset : float) (cs : list cue)
  : list emission :=
  map (shifted seg (fst r) offset)
      (filter (fun c => holds (cue_start c) (cue_end c) r) cs).

Fixpoint all_hits (ranges : list TimeRange) (seg : nat) (todo : list TimeRange)
    (cs : list cue) : list emission :=
  match todo with
  | [] => []
  | r :: rest =>
      (hits seg r (seg_offset ranges seg) cs ++ all_hits ranges (S seg) rest cs)%list
  end.

(** The blocks of the emissions, numbered from [n]; an exception of the
    formatter ends it. *)
Fixpoint render (n : Z) (es : list emission) : res (list string) :=
  match es with
  | [] => Ret []
  | e :: rest =>
      let* new_st := sec_to_srt_time (em_start e) in
      let* new_et := sec_to_srt_time (em_end e) in
      let* blocks := render (n + 1) rest in
      Ret (cue_block n new_st new_et (em_text e) ++ blocks)%list
  end.

Definition times_emitted (i : nat) (es : list emission) : nat :=
  List.length (filter (fun e => Nat.eqb (em_line e) i) es).

(** start < end for every range, and each range ends no later than the
    next starts, in the order of the floats. *)
Definition proper (r : TimeRange) : Prop := lt (fst r) (snd r) = true.

Fixpoint ordered (ranges : list TimeRange) : Prop :=
  match ranges with
  | prev :: ((next :: _) as rest) => le (snd prev) (fst next) = true /\ ordered rest
  | _ => True
  end.

(** [t] is a timestamp [HH:MM:SS,mmm] and [g] its four groups. *)
Definition timestamp (t : string) (g : string * string * string * string) : Prop :=
  let '(hh, mm, ss, mmm) := g in
  t = (hh ++ ":" ++ mm ++ ":" ++ ss ++ "," ++ mmm)%string
  /\ String.length hh = 2%nat /\ String.length mm = 2%nat
  /\ String.length ss = 2%nat /\ String.length mmm = 3%nat
  /\ all_digits hh = true /\ all_digits mm = true
  /\ all_digits ss = true /\ all_digits mmm = true.

Definition no_dash (c : ascii) : bool := negb (Ascii.eqb "-" c).

(** The place of a float that is not a nan in the order of [<] and
    [<=]: the sign class first, then the exponent and the mantissa. *)
Definition rank (f : float) : option (Z * Z * Z) :=
  match f with
  | S754_nan => None
  | S754_infinity true => Some (-2, 0, 0)
  | S754_finite true m e => Some (-1, - e, Zneg m)
  | S754_zero _ => Some (0, 0, 0)
  | S754_finite false m e => Some (1, e, Zpos m)
  | S754_infinity false => Some (2, 0, 0)
  end.

Definition rank_lt (a b : Z * Z * Z) : Prop :=
  let '(a1, a2, a3) := a in
  let '(b1, b2, b3) := b in
  a1 < b1 \/ (a1 = b1 /\ (a2 < b2 \/ (a2 = b2 /\ a3 < b3))).

(** Neither a nan nor below zero. *)
Definition plus (f : float) : bool :=
  match f with
  | S754_nan | S754_infinity true | S754_finite true _ _ => false
  | _ => true
  end.

(** A time of a range is neither a nan nor negative. *)
Definition sound (r : TimeRange) : Prop :=
  plus (fst r) = true /\ plus (snd r) = true.

(** The formatter returns a text for [x]. *)
Definition formats (x : float) : Prop := exists t, sec_to_srt_time x = Ret t.

(** A line with an arrow has one arrow only: [line.split('-->')] has
    two parts, as the unpacking needs. *)
Definition splits_in_two (l : string) : Prop :=
  Str.contains "-->" l = true -> exists t1 t2, Str.split "-->" l = [t1; t2].

(** The formatter returns on both shifted times of every cue that a
    range holds. *)
Definition shifted_times_format (srt_lines : list string)
    (ranges : list TimeRange) : Prop :=
  forall i k s e start end_,
    cue_at srt_lines i = Some (s, e) ->
    nth_error ranges k = Some (start, end_) ->
    ge s start = true -> le e end_ = true ->
    formats (add (sub s start) (seg_offset ranges k))
    /\ formats (add (sub e start) (seg_offset ranges k)).

(** ** Inputs of the examples *)

Definition line (s : string) : string := (s ++ newline)%string.

(** A cue inside the first range, a cue that ends at 1.128 as the
    first range does on paper, and a cue across the gap. *)
Definition srt_three_cues : list string :=
  [line "1"; line "00:00:00,500 --> 00:00:01,000"; line "kept"; newline;
   line "2"; line "00:00:01,000 --> 00:00:01,128"; line "on the edge"; newline;
   line "3"; line "00:00:01,500 --> 00:00:02,500"; line "across"; newline].


Definition srt_boundary_cue : list string :=
  [line "1"; line "00:00:10,000 --> 00:00:10,000"; line "hello"; newline].

Definition args_fade_02 : Args :=
  mkArgs "in.mp4" ["0:00:00.1-0:00:00.3"] "cuts" None (float_of "0.2") None.

End F64.

(** * Properties *)

(** ** Comparisons *)

Lemma gt_spec (x y : Q) : Num.gt x y = true <-> (y < x)%Q.
Proof.
  unfold Num.gt. rewrite negb_true_iff, <- not_true_iff_false, Qle_bool_iff.
  split; [apply Qnot_le_lt | apply Qlt_not_le].
Qed.

Lemma gt_false (x y : Q) : Num.gt x y = false <-> (x <= y)%Q.
Proof.
  unfold Num.gt. rewrite negb_false_iff. apply Qle_bool_iff.
Qed.

Lemma lt_spec (x y : Q) : Num.lt x y = true <-> (x < y)%Q.
Proof. apply (gt_spec y x). Qed.

Lemma lt_false (x y : Q) : Num.lt x y = false <-> (y <= x)%Q.
Proof. apply (gt_false y x). Qed.

Lemma ge_spec (x y : Q) : Num.ge x y = true <-> (y <= x)%Q.
Proof. apply Qle_bool_iff. Qed.

Lemma ge_false (x y : Q) : Num.ge x y = false <-> (x < y)%Q.
Proof.
  unfold Num.ge. rewrite <- not_true_iff_false, Qle_bool_iff.
  split; [apply Qnot_le_lt | apply Qlt_not_le].
Qed.

Lemma le_spec (x y : Q) : Num.le x y = true <-> (x <= y)%Q.
Proof. apply Qle_bool_iff. Qed.

(** ** Digit strings *)

Lemma span_digits_app (a rest : string) :
  all_digits a = true -> starts_with_digit rest = false ->
  Str.span Str.is_digit (a ++ rest) = (a, rest).
Proof.
  intros Ha Hr. induction a as [|c a IH]; simpl in *.
  - destruct rest as [|c r]; simpl in *; [reflexivity|]. now rewrite Hr.
  - apply andb_prop in Ha as [Hc Ha]. rewrite Hc, (IH Ha). reflexivity.
Qed.

Lemma truthy_nonempty (s : string) : s <> EmptyString -> Str.truthy s = true.
Proof. destruct s; [congruence | reflexivity]. Qed.

(** ** C1: a two-part time string *)

(** C1, as amended.  A time string made of two digit groups [a:b],
    followed by nothing that starts a seconds field, is read as hours
    and minutes: the parser returns [a*3600 + b*60], the seconds being
    the default 0. *)
Theorem parse_time_two_part (a b rest : string) :
  all_digits a = true -> a <> EmptyString ->
  all_digits b = true -> b <> EmptyString ->
  starts_with_digit rest = false -> seconds_group rest = None ->
  parse_time (a ++ ":" ++ b ++ rest)
  = Ok (inject_Z (Str.int_of a * 3600 + Str.int_of b * 60) + 0)%Q.
Proof.
  intros Ha Hna Hb Hnb Hr Hs.
  unfold parse_time, re_time.
  rewrite (span_digits_app a (":" ++ b ++ rest) Ha eq_refl).
  rewrite (truthy_nonempty a Hna). cbn [Str.strip_prefix append Ascii.eqb Bool.eqb].
  rewrite (span_digits_app b rest Hb Hr), (truthy_nonempty b Hnb), Hs.
  reflexivity.
Qed.

Lemma parse_time_two_part_witness :
  parse_time "0:05" = Ok (inject_Z (Str.int_of "0" * 3600 + Str.int_of "05" * 60) + 0)%Q.
Proof.
  apply (parse_time_two_part "0" "05" "");
    try reflexivity; discriminate.
Defined.

(** C1, as stated, fails: ["0:05"] is not parsed to 0*60 + 5 seconds
    (it is parsed to 300). *)
Lemma parse_time_0_05_is_not_5 :
  parse_time "0:05" = Ok 300%Q
  /\ ~ (exists q, parse_time "0:05" = Ok q /\ (q == inject_Z (0 * 60) + 5)%Q).
Proof.
  split; [reflexivity|].
  intros [q [H E]]. vm_compute in H. injection H as <-. discriminate E.
Qed.

(** The three-part form carries the seconds, with their fraction; a
    fraction after a two-part form is not read. *)
Example parse_time_forms :
  parse_time "1:02:03.5" = Ok (37235 # 10)%Q
  /\ parse_time "1:05.5" = Ok 3900%Q
  /\ parse_time "5" = Raise (ValueError "Invalid time: 5").
Proof. repeat split; vm_compute; reflexivity. Qed.

(** ** C5: the range validator *)




Lemma check_order_ok (ranges : list TimeRange) :
  check_order ranges = Ok tt <-> ordered ranges.
Proof.
  induction ranges as [|prev rest IH]; simpl; [tauto|].
  destruct rest as [|next rest']; [tauto|].
  destruct (Num.gt (snd prev) (fst next)) eqn:Hgt.
  - apply gt_spec in Hgt. split; [discriminate|].
    intros [Hle _]. exfalso. exact (Qlt_not_le _ _ Hgt Hle).
  - apply gt_false in Hgt. rewrite IH. tauto.
Qed.




(** ** C4, C9, C10: the fade check and the branch of the cutter *)

Lemma fold_min_spec (rest : list Q) (x : Q) :
  let m := fold_left (fun m y => if Num.lt y m then y else m) rest x in
  In m (x :: rest) /\ forall y, In y (x :: rest) -> (m <= y)%Q.
Proof.
  revert x. induction rest as [|y rest IH]; intros x; simpl.
  - split; [auto|]. intros y [<-|[]]. apply Qle_refl.
  - destruct (IH (if Num.lt y x then y else x)) as [Hin Hle].
    simpl in Hin, Hle. split.
    + destruct Hin as [Hin|Hin]; [|auto].
      rewrite <- Hin. destruct (Num.lt y x); auto.
    + assert (Hx' : ((if Num.lt y x then y else x) <= x
                    /\ (if Num.lt y x then y else x) <= y)%Q).
      { destruct (Num.lt y x) eqn:E.
        - apply lt_spec in E. split; [apply Qlt_le_weak, E | apply Qle_refl].
        - apply lt_false in E. split; [apply Qle_refl | exact E]. }
      intros z [<-|[<-|Hz]].
      * eapply Qle_trans; [apply Hle; left; reflexivity | apply Hx'].
      * eapply Qle_trans; [apply Hle; left; reflexivity | apply Hx'].
      * apply Hle. right. exact Hz.
Qed.

Lemma get_min_duration_spec (ranges : list TimeRange) :
  ranges <> [] ->
  exists m, get_min_duration ranges = Ok m
    /\ In m (map duration ranges)
    /\ forall r, In r ranges -> (m <= duration r)%Q.
Proof.
  destruct ranges as [|r0 rest]; [congruence|]. intros _.
  unfold get_min_duration. simpl map. unfold py_min.
  destruct (fold_min_spec (map duration rest) (duration r0)) as [Hin Hle].
  eexists. split; [reflexivity|]. split; [exact Hin|].
  intros r Hr. apply Hle. change (In (duration r) (map duration (r0 :: rest))).
  apply in_map. exact Hr.
Qed.


Lemma stripped_lines_blank (file_lines : list string) :
  Forall (fun l => Str.strip l = EmptyString) file_lines ->
  stripped_lines file_lines = [].
Proof.
  unfold stripped_lines. induction 1 as [|l ls Hl _ IH]; [reflexivity|].
  simpl. rewrite Hl. simpl. exact IH.
Qed.

(** C9.  When the range file has no non-blank line the validator
    returns the empty list, the minimum duration of the empty list is a
    [ValueError], and [main] ends with that exception uncaught, having
    printed nothing and called nothing; the minimum duration is defined
    exactly for the non-empty lists. *)
Theorem empty_range_file (args : Args) :
  Forall (fun l => Str.strip l = EmptyString) (time_ranges_file args) ->
  parse_time_ranges_file (time_ranges_file args) = Ok []
  /\ (exists msg, get_min_duration [] = Raise (ValueError msg)
        /\ main args = mkRun [] [] (Uncaught (ValueError msg)))
  /\ (forall ranges, (exists m, get_min_duration ranges = Ok m) <-> ranges <> []).
Proof.
  intros H.
  assert (Hp : parse_time_ranges_file (time_ranges_file args) = Ok []).
  { unfold parse_time_ranges_file. now rewrite (stripped_lines_blank _ H). }
  split; [exact Hp|]. split.
  - eexists. split; [reflexivity|]. unfold main. now rewrite Hp.
  - intros ranges. split.
    + intros [m Hm] ->. discriminate Hm.
    + intros Hne. destruct (get_min_duration_spec ranges Hne) as (m & Hm & _).
      now exists m.
Qed.

Lemma empty_range_file_witness :
  parse_time_ranges_file [" "; newline] = Ok []
  /\ (exists msg, get_min_duration [] = Raise (ValueError msg)
        /\ main (mkArgs "in.mp4" [" "; newline] "cuts" None 0 None)
           = mkRun [] [] (Uncaught (ValueError msg)))
  /\ (forall ranges, (exists m, get_min_duration ranges = Ok m) <-> ranges <> []).
Proof.
  apply (empty_range_file (mkArgs "in.mp4" [" "; newline] "cuts" None 0 None)).
  repeat constructor.
Defined.





(** ** The re-timer as a list comprehension *)

Open Scope list_scope.

Lemma render_app (es1 es2 : list emission) (n : Z) :
  render n (es1 ++ es2)
  = render n es1 ++ render (n + Z.of_nat (List.length es1)) es2.
Proof.
  revert n. induction es1 as [|e es1 IH]; intros n.
  - simpl. now rewrite Z.add_0_r.
  - cbn [render app List.length]. rewrite IH, <- app_assoc.
    do 3 f_equal. lia.
Qed.

Lemma scan_lines_spec (seg : nat) (start end_ off : Q) (lines : list string) :
  arrows_ok lines = true ->
  forall (i : nat) (st : retimer_state),
  scan_lines seg start end_ off i lines st
  = let es := hits seg (start, end_) off (cues_from i lines) in
    Ok (mkState (new_srt st ++ render (idx st) es)
                (idx st + Z.of_nat (List.length es))
                (log st ++ es)).
Proof.
  induction lines as [|line following IH]; intros Hok i st.
  - simpl. rewrite !app_nil_r, Z.add_0_r. now destruct st.
  - simpl in Hok. apply andb_prop in Hok as [Hl Hok].
    cbn [scan_lines cues_from].
    destruct (cue_times line) as [c|]; [|discriminate]. cbn [bind].
    rewrite (IH Hok). clear IH. cbv zeta.
    destruct c as [[s e]|]; [|reflexivity].
    unfold hits. cbn [filter fst].
    assert (Hin : inside (start, end_) (mkCue i s e (text_lines following))
                  = Num.ge s start && Num.le e end_) by reflexivity.
    rewrite Hin. clear Hin.
    destruct (Num.ge s start && Num.le e end_); [|reflexivity].
    cbn [map new_srt idx log List.length render shifted fst snd
         cue_start cue_end cue_text cue_line em_start em_end em_text].
    f_equal. f_equal.
    + rewrite <- !app_assoc. reflexivity.
    + lia.
    + rewrite <- app_assoc. reflexivity.
Qed.

Section Scan.

Variable ranges : list TimeRange.
Variable srt_lines : list string.
Hypothesis arrows : arrows_ok srt_lines = true.

Lemma scan_ranges_spec (todo : list TimeRange) :
  forall (seg : nat) (st : retimer_state),
  scan_ranges ranges srt_lines seg todo st
  = let es := all_hits ranges seg todo (cues srt_lines) in
    Ok (mkState (new_srt st ++ render (idx st) es)
                (idx st + Z.of_nat (List.length es))
                (log st ++ es)).
Proof.
  induction todo as [|[start end_] rest IH]; intros seg st.
  - simpl. rewrite !app_nil_r, Z.add_0_r. now destruct st.
  - cbn [scan_ranges]. rewrite (scan_lines_spec _ _ _ _ _ arrows). cbn [bind].
    rewrite IH. cbv zeta. cbn [all_hits new_srt idx log]. fold (cues srt_lines).
    rewrite render_app, length_app, Nat2Z.inj_add, <- !app_assoc, Z.add_assoc.
    reflexivity.
Qed.

(** The run of the two loops: the state after them holds the blocks of
    [emitted], the next number and the emissions themselves. *)
Lemma retime_spec :
  retime srt_lines ranges
  = let es := emitted ranges srt_lines in
    Ok (mkState (render 1 es) (1 + Z.of_nat (List.length es)) es).
Proof. unfold retime. now rewrite scan_ranges_spec. Qed.

End Scan.

Lemma times_emitted_app (i : nat) (es1 es2 : list emission) :
  times_emitted i (es1 ++ es2) = (times_emitted i es1 + times_emitted i es2)%nat.
Proof. unfold times_emitted. now rewrite filter_app, length_app. Qed.

Lemma times_emitted_pos (i : nat) (es : list emission) :
  (exists em, In em es /\ em_line em = i) <-> (0 < times_emitted i es)%nat.
Proof.
  unfold times_emitted. split.
  - intros (em & Hin & Hl).
    assert (H : In em (filter (fun e => Nat.eqb (em_line e) i) es)).
    { apply filter_In. split; [exact Hin|]. now apply Nat.eqb_eq. }
    destruct (filter _ es); [destruct H | simpl; lia].
  - destruct (filter (fun e => Nat.eqb (em_line e) i) es) as [|em l] eqn:E.
    + simpl. lia.
    + intros _. assert (H : In em (filter (fun e => Nat.eqb (em_line e) i) es)).
      { rewrite E. now left. }
      apply filter_In in H as [Hin Hl]. exists em. split; [exact Hin|].
      now apply Nat.eqb_eq.
Qed.

Lemma hits_cons (seg : nat) (r : TimeRange) (off : Q) (c : cue) (cs : list cue) :
  hits seg r off (c :: cs)
  = if inside r c then shifted seg (fst r) off c :: hits seg r off cs
    else hits seg r off cs.
Proof. unfold hits. cbn [filter]. now destruct (inside r c). Qed.

Lemma times_emitted_cons (i : nat) (em : emission) (es : list emission) :
  times_emitted i (em :: es)
  = ((if (em_line em =? i)%nat then 1 else 0) + times_emitted i es)%nat.
Proof. unfold times_emitted. cbn [filter]. now destruct (em_line em =? i)%nat. Qed.

(** The emissions of one segment that come from line [i]: one when
    that line is a cue the range holds, none otherwise. *)
Lemma times_emitted_hits (seg : nat) (r : TimeRange) (off : Q)
    (lines : list string) :
  forall j i : nat,
  times_emitted i (hits seg r off (cues_from j lines))
  = if (j <=? i)%nat then
      match cue_at lines (i - j) with
      | Some (s, e) => if holds s e r then 1%nat else 0%nat
      | None => 0%nat
      end
    else 0%nat.
Proof.
  induction lines as [|line following IH]; intros j i.
  - unfold cue_at. simpl. destruct (j <=? i)%nat; [|reflexivity].
    now destruct (i - j)%nat.
  - cbn [cues_from].
    assert (Hrest : times_emitted i (hits seg r off (cues_from (S j) following))
                    = if (j <? i)%nat then
                        match cue_at (line :: following) (i - j) with
                        | Some (s, e) => if holds s e r then 1%nat else 0%nat
                        | None => 0%nat
                        end
                      else 0%nat).
    { rewrite IH. unfold Nat.ltb.
      destruct (S j <=? i)%nat eqn:E; [|reflexivity].
      apply Nat.leb_le in E.
      replace (i - j)%nat with (S (i - S j)) by lia. reflexivity. }
    destruct (Nat.eq_dec i j) as [->|Hne].
    + rewrite Nat.ltb_irrefl in Hrest. rewrite Nat.leb_refl, Nat.sub_diag.
      unfold cue_at. cbn [nth_error].
      destruct (cue_times line) as [[[s e]|]|]; try exact Hrest.
      rewrite hits_cons.
      change (inside r (mkCue j s e (text_lines following))) with (holds s e r).
      destruct (holds s e r); [|exact Hrest].
      rewrite times_emitted_cons, Hrest. cbn [shifted em_line cue_line].
      now rewrite Nat.eqb_refl.
    + assert (Hji : (j =? i)%nat = false) by (apply Nat.eqb_neq; lia).
      assert (Hskip :
        times_emitted i
          (hits seg r off
             match cue_times line with
             | Ok (Some (s, e)) =>
                 mkCue j s e (text_lines following) :: cues_from (S j) following
             | _ => cues_from (S j) following
             end)
        = times_emitted i (hits seg r off (cues_from (S j) following))).
      { destruct (cue_times line) as [[[s e]|]|]; try reflexivity.
        rewrite hits_cons.
        destruct (inside r (mkCue j s e (text_lines following))); [|reflexivity].
        rewrite times_emitted_cons. cbn [shifted em_line cue_line].
        now rewrite Hji. }
      rewrite Hskip, Hrest. unfold Nat.ltb.
      destruct (j <=? i)%nat eqn:E1, (S j <=? i)%nat eqn:E2; try reflexivity.
      * apply Nat.leb_le in E1. apply Nat.leb_gt in E2. lia.
      * apply Nat.leb_gt in E1. apply Nat.leb_le in E2. lia.
Qed.

Lemma times_emitted_all_hits (ranges : list TimeRange) (srt_lines : list string)
    (i : nat) (s e : Q) :
  cue_at srt_lines i = Some (s, e) ->
  forall (todo : list TimeRange) (seg : nat),
  times_emitted i (all_hits ranges seg todo (cues srt_lines))
  = List.length (filter (holds s e) todo).
Proof.
  intros Hc. induction todo as [|r rest IH]; intros seg; [reflexivity|].
  cbn [all_hits filter]. rewrite times_emitted_app, IH. unfold cues.
  rewrite times_emitted_hits. cbn [Nat.leb]. rewrite Nat.sub_0_r, Hc.
  destruct (holds s e r); reflexivity.
Qed.

Lemma in_cues_from (c : cue) (lines : list string) :
  forall j : nat,
  In c (cues_from j lines) ->
  (j <= cue_line c)%nat
  /\ cue_at lines (cue_line c - j) = Some (cue_start c, cue_end c)
  /\ cue_text c = text_lines (skipn (S (cue_line c - j)) lines).
Proof.
  induction lines as [|line following IH]; intros j Hin; [destruct Hin|].
  cbn [cues_from] in Hin.
  assert (Hlater : In c (cues_from (S j) following) ->
    (j <= cue_line c)%nat
    /\ cue_at (line :: following) (cue_line c - j) = Some (cue_start c, cue_end c)
    /\ cue_text c = text_lines (skipn (S (cue_line c - j)) (line :: following))).
  { intros H. destruct (IH _ H) as (Hle & Hc & Ht).
    replace (cue_line c - j)%nat with (S (cue_line c - S j)) by lia.
    split; [lia|]. split; assumption. }
  destruct (cue_times line) as [[[s e]|]|] eqn:E; try (now apply Hlater).
  destruct Hin as [<-|Hin]; [|now apply Hlater].
  cbn [cue_line cue_start cue_end cue_text]. rewrite Nat.sub_diag.
  unfold cue_at. cbn [nth_error skipn]. rewrite E. auto.
Qed.

Lemma in_all_hits (ranges : list TimeRange) (cs : list cue) (em : emission) :
  forall (todo : list TimeRange) (seg : nat),
  In em (all_hits ranges seg todo cs) ->
  exists k r c,
    nth_error todo k = Some r /\ In c cs /\ inside r c = true
    /\ em = shifted (seg + k) (fst r) (seg_offset ranges (seg + k)) c.
Proof.
  induction todo as [|r rest IH]; intros seg Hin; [destruct Hin|].
  cbn [all_hits] in Hin. apply in_app_or in Hin as [Hin|Hin].
  - unfold hits in Hin. apply in_map_iff in Hin as (c & <- & Hc).
    apply filter_In in Hc as [Hc Hi].
    exists 0%nat, r, c. rewrite Nat.add_0_r. auto.
  - destruct (IH _ Hin) as (k & r' & c & Hk & Hc & Hi & ->).
    exists (S k), r', c. rewrite Nat.add_succ_r. auto.
Qed.


Lemma holds_spec (s e : Q) (r : TimeRange) :
  holds s e r = true <-> (fst r <= s /\ e <= snd r)%Q.
Proof. unfold holds. now rewrite andb_true_iff, ge_spec, le_spec. Qed.

Lemma filter_nonempty {A : Type} (p : A -> bool) (l : list A) :
  (0 < List.length (filter p l))%nat
  <-> exists k x, nth_error l k = Some x /\ p x = true.
Proof.
  split.
  - destruct (filter p l) as [|x l'] eqn:E; [simpl; lia|]. intros _.
    assert (H : In x (filter p l)) by (rewrite E; now left).
    apply filter_In in H as [Hin Hp]. apply In_nth_error in Hin as [k Hk].
    now exists k, x.
  - intros (k & x & Hk & Hp). apply nth_error_In in Hk.
    assert (H : In x (filter p l)) by (apply filter_In; auto).
    destruct (filter p l); [destruct H | simpl; lia].
Qed.

Lemma adjust_subtitle_retime (srt_lines : list string) (ranges : list TimeRange)
    (st : retimer_state) :
  retime srt_lines ranges = Ok st ->
  adjust_subtitle srt_lines ranges = Ok (new_srt st).
Proof. intros H. unfold adjust_subtitle. now rewrite H. Qed.



Lemma ordered_later (r : TimeRange) (rest : list TimeRange) :
  Forall proper rest -> ordered (r :: rest) ->
  forall r', In r' rest -> (snd r <= fst r')%Q.
Proof.
  revert r. induction rest as [|a rest IH]; intros r Hp Ho r' Hin; [destruct Hin|].
  cbn [ordered] in Ho. destruct Ho as [Hra Ho].
  inversion Hp as [|? ? Ha Hrest]; subst.
  destruct Hin as [<-|Hin]; [exact Hra|].
  eapply Qle_trans; [exact Hra|].
  eapply Qle_trans; [apply Qlt_le_weak, Ha|].
  now apply (IH a).
Qed.

Lemma ordered_tail (r : TimeRange) (rest : list TimeRange) :
  ordered (r :: rest) -> ordered rest.
Proof. destruct rest; [constructor|]. now intros [_ H]. Qed.

(** In a validated list at most one range holds a span of positive
    length. *)
Lemma holds_at_most_once (s e : Q) (ranges : list TimeRange) :
  Forall proper ranges -> ordered ranges -> (s < e)%Q ->
  (List.length (filter (holds s e) ranges) <= 1)%nat.
Proof.
  intros Hp Ho Hse. induction ranges as [|r rest IH]; [simpl; lia|].
  inversion Hp as [|? ? Hr Hrest]; subst.
  specialize (IH Hrest (ordered_tail _ _ Ho)).
  cbn [filter]. destruct (holds s e r) eqn:Hh; [|exact IH].
  apply holds_spec in Hh as [_ Her].
  assert (Hnone : filter (holds s e) rest = []).
  { clear IH. assert (H : forall r', In r' rest -> holds s e r' = false).
    { intros r' Hin. apply not_true_iff_false. intros Hh'.
      apply holds_spec in Hh' as [Hs' _].
      pose proof (ordered_later r rest Hrest Ho r' Hin) as Hle.
      apply (Qlt_irrefl s).
      eapply Qlt_le_trans; [exact Hse|].
      eapply Qle_trans; [exact Her|]. eapply Qle_trans; eassumption. }
    clear -H. induction rest as [|a rest IHr]; [reflexivity|].
    cbn [filter]. rewrite (H a (or_introl eq_refl)).
    apply IHr. intros r' Hin. apply H. now right. }
  rewrite Hnone. simpl. lia.
Qed.

Lemma filter_two {A : Type} (p : A -> bool) (l : list A) :
  forall (k : nat) (a b : A),
  nth_error l k = Some a -> nth_error l (S k) = Some b ->
  p a = true -> p b = true ->
  (2 <= List.length (filter p l))%nat.
Proof.
  induction l as [|x l IH]; intros [|k] a b Ha Hb Hpa Hpb; try discriminate.
  - injection Ha as ->. cbn [filter]. rewrite Hpa.
    destruct l as [|y l]; [discriminate|]. injection Hb as ->.
    cbn [filter]. rewrite Hpb. simpl. lia.
  - cbn [nth_error] in Ha, Hb. specialize (IH k a b Ha Hb Hpa Hpb).
    cbn [filter]. destruct (p x); simpl; lia.
Qed.

(** The ranges 10-20 and 30-40 with a cue inside the first range, a
    cue in the gap and a cue across the cut at 20: only the first one
    is written, moved to 5-8. *)
Example retimer_drops_gap_and_straddling_cues :
  adjust_subtitle
    ["1"; "00:00:15,000 --> 00:00:18,000"; "inside"; "";
     "2"; "00:00:25,000 --> 00:00:28,000"; "gap"; "";
     "3"; "00:00:18,000 --> 00:00:22,000"; "straddling"; ""]
    [(10, 20); (30, 40)]%Q
  = Ok [("1" ++ newline)%string;
        ("00:00:05,000 --> 00:00:08,000" ++ newline)%string;
        "inside"; newline].
Proof. vm_compute. reflexivity. Qed.

(** ** The formatter: decimal fields *)

Open Scope string_scope.
Open Scope Z_scope.

Lemma int_acc_app (s1 s2 : string) :
  forall acc, Str.int_acc acc (s1 ++ s2) = Str.int_acc (Str.int_acc acc s1) s2.
Proof. induction s1 as [|c s1 IH]; intros acc; simpl; [reflexivity | apply IH]. Qed.

Lemma all_digits_app (s1 s2 : string) :
  all_digits (s1 ++ s2) = all_digits s1 && all_digits s2.
Proof.
  induction s1 as [|c s1 IH]; simpl; [reflexivity|].
  now rewrite IH, andb_assoc.
Qed.

Lemma string_length_app (s1 s2 : string) :
  String.length (s1 ++ s2) = (String.length s1 + String.length s2)%nat.
Proof. induction s1 as [|c s1 IH]; simpl; [reflexivity | now rewrite IH]. Qed.

Lemma digit_char_ok (d : Z) :
  0 <= d < 10 ->
  Str.is_digit (Str.digit_char d) = true /\ Str.digit_val (Str.digit_char d) = d.
Proof.
  intros H.
  assert (E : d = 0 \/ d = 1 \/ d = 2 \/ d = 3 \/ d = 4 \/ d = 5 \/ d = 6
              \/ d = 7 \/ d = 8 \/ d = 9) by lia.
  repeat (destruct E as [->|E]; [split; reflexivity|]). subst. split; reflexivity.
Qed.

(** The decimal digits of a natural number. *)
Lemma digits_fuel_spec (fuel : nat) :
  forall n, 0 <= n < 2 ^ Z.of_nat (S fuel) ->
  let d := Str.digits_fuel (S fuel) n in
  all_digits d = true /\ Str.int_of d = n
  /\ (n < 10 -> String.length d = 1%nat)
  /\ (10 <= n < 100 -> String.length d = 2%nat)
  /\ (100 <= n < 1000 -> String.length d = 3%nat)
  /\ (100 <= n -> (3 <= String.length d)%nat).
Proof.
  induction fuel as [|fuel IH]; intros n Hn d; subst d.
  - change (2 ^ Z.of_nat 1) with 2 in Hn. cbn [Str.digits_fuel].
    assert (Hlt : (n <? 10) = true) by (apply Z.ltb_lt; lia). rewrite Hlt.
    destruct (digit_char_ok n ltac:(lia)) as [H1 H2].
    cbn [all_digits String.length]. rewrite H1.
    unfold Str.int_of. cbn [Str.int_acc]. rewrite H2.
    repeat split; try reflexivity; lia.
  - remember (S fuel) as f eqn:Ef.
    cbn [Str.digits_fuel]. destruct (n <? 10) eqn:Hlt.
    + apply Z.ltb_lt in Hlt.
      destruct (digit_char_ok n ltac:(lia)) as [H1 H2].
      cbn [all_digits String.length]. rewrite H1.
      unfold Str.int_of. cbn [Str.int_acc]. rewrite H2.
      repeat split; try reflexivity; lia.
    + apply Z.ltb_ge in Hlt.
      assert (Hq : 0 <= n / 10 < 2 ^ Z.of_nat f).
      { split; [apply Z.div_pos; lia|].
        apply Z.div_lt_upper_bound; [lia|].
        rewrite (Nat2Z.inj_succ f), Z.pow_succ_r in Hn by lia. lia. }
      destruct (IH (n / 10) Hq) as (A & I & L1 & L2 & L2' & L3).
      destruct (digit_char_ok (n mod 10) ltac:(apply Z.mod_pos_bound; lia))
        as [H1 H2].
      rewrite all_digits_app, string_length_app. cbn [all_digits String.length].
      rewrite A, H1. unfold Str.int_of in *. rewrite int_acc_app, I.
      cbn [Str.int_acc]. rewrite H2.
      pose proof (Z.div_mod n 10 ltac:(lia)) as Hdm.
      repeat split; try reflexivity; try lia.
      * intros H. assert (n / 10 < 10) by (apply Z.div_lt_upper_bound; lia).
        rewrite (L1 ltac:(lia)). reflexivity.
      * intros H.
        assert (10 <= n / 10) by (apply Z.div_le_lower_bound; lia).
        assert (n / 10 < 100) by (apply Z.div_lt_upper_bound; lia).
        rewrite (L2 ltac:(lia)). reflexivity.
      * intros H.
        assert (10 <= n / 10) by (apply Z.div_le_lower_bound; lia).
        destruct (Z_lt_dec (n / 10) 100) as [Hs|Hs].
        -- rewrite (L2 ltac:(lia)). simpl. lia.
        -- pose proof (L3 ltac:(lia)). lia.
Qed.

Lemma digits_spec (n : Z) :
  0 <= n ->
  all_digits (Str.digits n) = true /\ Str.int_of (Str.digits n) = n
  /\ (n < 10 -> String.length (Str.digits n) = 1%nat)
  /\ (10 <= n < 100 -> String.length (Str.digits n) = 2%nat)
  /\ (100 <= n < 1000 -> String.length (Str.digits n) = 3%nat)
  /\ (100 <= n -> (3 <= String.length (Str.digits n))%nat).
Proof.
  intros Hn. apply digits_fuel_spec. split; [exact Hn|].
  rewrite Nat2Z.inj_succ, Z2Nat.id by apply Z.log2_nonneg.
  destruct (Z.eq_dec n 0) as [->|Hne]; [reflexivity|].
  apply Z.log2_spec. lia.
Qed.

Lemma int_of_zeros (k : nat) (s : string) :
  Str.int_of (Str.zeros k ++ s) = Str.int_of s.
Proof.
  unfold Str.int_of. rewrite int_acc_app.
  replace (Str.int_acc 0 (Str.zeros k)) with 0; [reflexivity|].
  induction k as [|k IH]; [reflexivity|]. simpl. exact IH.
Qed.

Lemma all_digits_zeros (k : nat) : all_digits (Str.zeros k) = true.
Proof. induction k; [reflexivity | exact IHk]. Qed.

Lemma length_zeros (k : nat) : String.length (Str.zeros k) = k.
Proof. induction k; simpl; [reflexivity | now rewrite IHk]. Qed.

(** A field [{n:0w}] of a natural number. *)
Lemma zfill_spec (w : nat) (n : Z) :
  0 <= n ->
  all_digits (Str.zfill w n) = true /\ Str.int_of (Str.zfill w n) = n
  /\ String.length (Str.zfill w n) = Nat.max w (String.length (Str.digits n)).
Proof.
  intros Hn. unfold Str.zfill.
  assert (Hlt : (n <? 0) = false) by (apply Z.ltb_ge; lia). rewrite Hlt.
  destruct (digits_spec n Hn) as (A & I & _).
  rewrite all_digits_app, all_digits_zeros, A, int_of_zeros, I, string_length_app,
    length_zeros.
  repeat split; try reflexivity. lia.
Qed.

(** ** Floors and remainders *)

Open Scope Q_scope.

Lemma div_const (x : Q) (c : positive) : x / (Zpos c # 1) == x * (1 # c).
Proof. reflexivity. Qed.

(** Pushes [inject_Z] to the variables, so that [lra] sees linear
    constraints over them. *)
Ltac push_inject :=
  rewrite ?inject_Z_plus, ?inject_Z_mult, ?inject_Z_opp;
  change (inject_Z 0) with 0; change (inject_Z 1) with 1;
  change (inject_Z 60) with 60; change (inject_Z 100) with 100;
  change (inject_Z 3600) with 3600.

Ltac push_inject_in H :=
  rewrite ?inject_Z_plus, ?inject_Z_mult, ?inject_Z_opp in H;
  change (inject_Z 0) with 0 in H; change (inject_Z 1) with 1 in H;
  change (inject_Z 59) with 59 in H; change (inject_Z 999) with 999 in H;
  change (inject_Z 60) with 60 in H; change (inject_Z 3600) with 3600 in H.

Lemma int_inject (z : Z) : Num.int (inject_Z z) = z.
Proof.
  unfold Num.int. destruct (Qle_bool 0 (inject_Z z));
    [apply Qfloor_Z | apply Qceiling_Z].
Qed.

Lemma int_nonneg (x : Q) : 0 <= x -> Num.int x = Qfloor x.
Proof. intros H. unfold Num.int. apply Qle_bool_iff in H. now rewrite H. Qed.

Lemma floor_range (x : Q) (lo hi : Z) :
  inject_Z lo <= x -> x < inject_Z hi -> (lo <= Qfloor x < hi)%Z.
Proof.
  intros H1 H2. split.
  - rewrite <- (Qfloor_Z lo). now apply Qfloor_resp_le.
  - rewrite Zlt_Qlt. eapply Qle_lt_trans; [apply Qfloor_le | exact H2].
Qed.

Lemma floor_frac (x : Q) :
  0 <= x - inject_Z (Qfloor x) /\ x - inject_Z (Qfloor x) < 1.
Proof.
  pose proof (Qfloor_le x). pose proof (Qlt_floor x) as H1.
  push_inject_in H1. lra.
Qed.



Lemma floor_unique (x : Q) (z : Z) :
  inject_Z z <= x -> x < inject_Z z + 1 -> Qfloor x = z.
Proof.
  intros H1 H2.
  assert (H3 : x < inject_Z (z + 1)) by now rewrite inject_Z_plus.
  pose proof (floor_range x z (z + 1) H1 H3). lia.
Qed.

(** The floor of a quotient by a constant, from bounds [lra] can check. *)
Ltac floor_by_bounds c :=
  apply floor_unique; rewrite ?(div_const _ c); push_inject; lra.

Lemma round_int (x : Q) (z : Z) : x == inject_Z z -> Num.round x = z.
Proof.
  intros E. unfold Num.round.
  assert (F : Qfloor x = z) by (rewrite (Qfloor_comp _ _ E); apply Qfloor_Z).
  rewrite F.
  assert (L : Num.lt (x - inject_Z z) (1 # 2) = true) by (apply lt_spec; lra).
  now rewrite L.
Qed.

Lemma inject_bounds (z lo hi : Z) :
  (lo <= z <= hi)%Z -> inject_Z lo <= inject_Z z /\ inject_Z z <= inject_Z hi.
Proof. intros [H1 H2]. split; now rewrite <- Zle_Qle. Qed.

(** The fields the formatter computes for a time given by its hours,
    minutes, seconds and milliseconds. *)
Lemma sec_to_srt_time_fields (sec : Q) (H M S MS : Z) :
  (0 <= H)%Z -> (0 <= M < 60)%Z -> (0 <= S < 60)%Z -> (0 <= MS < 1000)%Z ->
  sec == inject_Z (H * 3600 + M * 60 + S) + inject_Z MS / 1000 ->
  sec_to_srt_time sec
  = (Str.zfill 2 H ++ ":" ++ Str.zfill 2 M ++ ":" ++ Str.zfill 2 S
     ++ "," ++ Str.zfill 3 MS)%string.
Proof.
  intros HH HM HS HMS E.
  destruct (inject_bounds H 0 H ltac:(lia)) as [H0 _].
  destruct (inject_bounds M 0 59 ltac:(lia)) as [M0 M1].
  destruct (inject_bounds S 0 59 ltac:(lia)) as [S0 S1].
  destruct (inject_bounds MS 0 999 ltac:(lia)) as [MS0 MS1].
  rewrite (div_const _ 1000) in E.
  push_inject_in E. push_inject_in H0. push_inject_in M0. push_inject_in M1.
  push_inject_in S0. push_inject_in S1. push_inject_in MS0. push_inject_in MS1.
  assert (E1 : Qfloor (sec / 3600) = H) by floor_by_bounds 3600%positive.
  assert (E2 : Qfloor (Num.mod_ sec 3600 / 60) = M).
  { unfold Num.mod_, Num.floordiv. rewrite E1. floor_by_bounds 60%positive. }
  assert (E3 : Num.int (Num.mod_ sec 60) = S).
  { unfold Num.mod_, Num.floordiv.
    assert (F : Qfloor (sec / 60) = (H * 60 + M)%Z) by floor_by_bounds 60%positive.
    rewrite F. push_inject. rewrite int_nonneg by lra.
    floor_by_bounds 60%positive. }
  assert (E4 : Num.round ((sec - inject_Z (Num.int sec)) * 1000) = MS).
  { assert (F : Num.int sec = (H * 3600 + M * 60 + S)%Z).
    { rewrite int_nonneg by lra. floor_by_bounds 60%positive. }
    rewrite F. apply round_int. push_inject. lra. }
  unfold sec_to_srt_time. unfold Num.floordiv at 1 2.
  rewrite !int_inject, E1, E2, E3, E4. reflexivity.
Qed.

Lemma field_length (w : nat) (n : Z) :
  (0 <= n)%Z ->
  ((n < 100)%Z -> w = 2%nat -> String.length (Str.zfill w n) = 2%nat)
  /\ ((n < 1000)%Z -> w = 3%nat -> String.length (Str.zfill w n) = 3%nat)
  /\ (w = 2%nat -> (2 <= String.length (Str.zfill w n))%nat)
  /\ ((100 <= n)%Z -> (3 <= String.length (Str.zfill w n))%nat).
Proof.
  intros Hn. destruct (zfill_spec w n Hn) as (_ & _ & L). rewrite L.
  destruct (digits_spec n Hn) as (_ & _ & L1 & L2 & L3 & L4).
  repeat split; intros; subst.
  - destruct (Z_lt_dec n 10%Z); [rewrite L1 | rewrite L2]; lia.
  - destruct (Z_lt_dec n 10%Z); [rewrite L1; lia|].
    destruct (Z_lt_dec n 100%Z); [rewrite L2 | rewrite L3]; lia.
  - lia.
  - specialize (L4 ltac:(assumption)). lia.
Qed.


(** ** C8: a timestamp read and written again *)

Lemma is_digit_cases (c : ascii) : Str.is_digit c = true -> In c digit_chars.
Proof.
  destruct c as [[] [] [] [] [] [] [] []]; intros H;
    try discriminate H; simpl; tauto.
Qed.

Lemma fields2_ok :
  forallb (fun a => forallb (fun b => field_ok 2 (str2 a b)) digit_chars)
          digit_chars = true.
Proof. vm_compute. reflexivity. Qed.

Lemma fields3_ok :
  forallb (fun a => forallb (fun b => forallb (fun c => field_ok 3 (str3 a b c))
                                              digit_chars) digit_chars)
          digit_chars = true.
Proof. vm_compute. reflexivity. Qed.

Lemma field_ok_spec (w : nat) (s : string) :
  field_ok w s = true ->
  Str.zfill w (Str.int_of s) = s /\ (0 <= Str.int_of s < 10 ^ Z.of_nat w)%Z.
Proof.
  unfold field_ok. rewrite !andb_true_iff, String.eqb_eq, Z.leb_le, Z.ltb_lt.
  tauto.
Qed.

Lemma field2 (s : string) :
  String.length s = 2%nat -> all_digits s = true ->
  Str.zfill 2 (Str.int_of s) = s /\ (0 <= Str.int_of s < 100)%Z.
Proof.
  destruct s as [|a [|b [|]]]; try discriminate. intros _ H.
  cbn [all_digits] in H. rewrite !andb_true_iff in H. destruct H as (Ha & Hb & _).
  pose proof fields2_ok as K. rewrite forallb_forall in K.
  specialize (K a (is_digit_cases a Ha)). rewrite forallb_forall in K.
  apply (field_ok_spec 2 (str2 a b)), K, is_digit_cases, Hb.
Qed.

Lemma field3 (s : string) :
  String.length s = 3%nat -> all_digits s = true ->
  Str.zfill 3 (Str.int_of s) = s /\ (0 <= Str.int_of s < 1000)%Z.
Proof.
  destruct s as [|a [|b [|c [|]]]]; try discriminate. intros _ H.
  cbn [all_digits] in H. rewrite !andb_true_iff in H.
  destruct H as (Ha & Hb & Hc & _).
  pose proof fields3_ok as K. rewrite forallb_forall in K.
  specialize (K a (is_digit_cases a Ha)). rewrite forallb_forall in K.
  specialize (K b (is_digit_cases b Hb)). rewrite forallb_forall in K.
  apply (field_ok_spec 3 (str3 a b c)), K, is_digit_cases, Hc.
Qed.

Lemma substring_prefix (g rest : string) :
  String.substring 0 (String.length g) (g ++ rest) = g.
Proof. induction g as [|c g IH]; [now destruct rest | simpl; now rewrite IH]. Qed.

Lemma substring_all (s : string) : String.substring 0 (String.length s) s = s.
Proof. induction s as [|c s IH]; [reflexivity | simpl; now rewrite IH]. Qed.

Lemma substring_suffix (g rest : string) :
  String.substring (String.length g)
                   (String.length (g ++ rest) - String.length g) (g ++ rest)
  = rest.
Proof.
  induction g as [|c g IH].
  - simpl. rewrite Nat.sub_0_r. apply substring_all.
  - simpl. exact IH.
Qed.

Lemma forallb_digits (s : string) :
  forallb Str.is_digit (list_ascii_of_string s) = all_digits s.
Proof. induction s as [|c s IH]; [reflexivity | simpl; now rewrite IH]. Qed.

Lemma digits_n_app (g rest : string) :
  all_digits g = true ->
  digits_n (String.length g) (g ++ rest) = Some (g, rest).
Proof.
  intros H. unfold digits_n.
  rewrite substring_prefix, Nat.eqb_refl, forallb_digits, H, substring_suffix.
  reflexivity.
Qed.

Lemma pattern_at_app (hh mm ss mmm rest : string) :
  String.length hh = 2%nat -> String.length mm = 2%nat ->
  String.length ss = 2%nat -> String.length mmm = 3%nat ->
  all_digits hh = true -> all_digits mm = true ->
  all_digits ss = true -> all_digits mmm = true ->
  pattern_at (hh ++ ":" ++ mm ++ ":" ++ ss ++ "," ++ mmm ++ rest)%string
  = Some ((hh, mm, ss, mmm), rest).
Proof.
  intros L1 L2 L3 L4 A1 A2 A3 A4. unfold pattern_at.
  rewrite <- L1 at 1. rewrite (digits_n_app hh _ A1).
  cbn [append Str.strip_prefix Ascii.eqb Bool.eqb].
  rewrite <- L2 at 1. rewrite (digits_n_app mm _ A2).
  cbn [append Str.strip_prefix Ascii.eqb Bool.eqb].
  rewrite <- L3 at 1. rewrite (digits_n_app ss _ A3).
  cbn [append Str.strip_prefix Ascii.eqb Bool.eqb].
  rewrite <- L4 at 1. rewrite (digits_n_app mmm _ A4).
  reflexivity.
Qed.

Lemma append_empty (s : string) : (s ++ "")%string = s.
Proof. induction s as [|c s IH]; [reflexivity | simpl; now rewrite IH]. Qed.

(** C8.  A timestamp [HH:MM:SS,mmm], with two-digit hours, minutes and
    seconds below 60 and three-digit milliseconds, is found by the
    pattern of the re-timer as its four groups, and formatting the
    seconds they denote gives the timestamp back. *)
Theorem srt_time_round_trip (hh mm ss mmm : string) :
  String.length hh = 2%nat -> String.length mm = 2%nat ->
  String.length ss = 2%nat -> String.length mmm = 3%nat ->
  all_digits hh = true -> all_digits mm = true ->
  all_digits ss = true -> all_digits mmm = true ->
  (Str.int_of mm < 60)%Z -> (Str.int_of ss < 60)%Z ->
  findall (hh ++ ":" ++ mm ++ ":" ++ ss ++ "," ++ mmm)%string
  = [(hh, mm, ss, mmm)]
  /\ sec_to_srt_time (srt_time_to_sec (hh, mm, ss, mmm))
     = (hh ++ ":" ++ mm ++ ":" ++ ss ++ "," ++ mmm)%string.
Proof.
  intros L1 L2 L3 L4 A1 A2 A3 A4 Hm Hs. split.
  - unfold findall.
    rewrite !string_length_app, L1, L2, L3, L4. cbn [String.length Nat.add findall_fuel].
    rewrite <- (append_empty mmm) at 1.
    rewrite (pattern_at_app hh mm ss mmm "" L1 L2 L3 L4 A1 A2 A3 A4).
    reflexivity.
  - destruct (field2 hh L1 A1) as [F1 B1]. destruct (field2 mm L2 A2) as [F2 B2].
    destruct (field2 ss L3 A3) as [F3 B3]. destruct (field3 mmm L4 A4) as [F4 B4].
    rewrite (sec_to_srt_time_fields _ (Str.int_of hh) (Str.int_of mm)
               (Str.int_of ss) (Str.int_of mmm));
      try lia; [|reflexivity].
    now rewrite F1, F2, F3, F4.
Qed.

(** ** C7 and C8: instances *)



(** A fraction of 0.9995 or more rounds to 1000 milliseconds, which the
    formatter writes as four digits without carrying into the seconds:
    2047/2048 s, the first cue time of a range that starts at 1/2048 s
    for a cue at 1 s, comes out as [00:00:00,1000]. *)
Lemma milliseconds_round_up_to_1000 :
  sec_to_srt_time (2047 # 2048) = "00:00:00,1000"
  /\ ~ srt_form (sec_to_srt_time (2047 # 2048))
  /\ parse_time_ranges_file ["0:00:00.00048828125-0:00:02"]
     = Ok [(48828125 # 100000000000, 2)]
  /\ adjust_subtitle ["1"; "00:00:01,000 --> 00:00:01,500"; "hello"; ""]
                     [(48828125 # 100000000000, 2)]
     = Ok [("1" ++ newline)%string;
           ("00:00:00,1000 --> 00:00:01,500" ++ newline)%string;
           "hello"; newline].
Proof.
  split; [vm_compute; reflexivity|]. split.
  - intros (hh & mm & ss & mmm & E & L1 & L2 & L3 & L4 & _).
    apply (f_equal String.length) in E.
    rewrite !string_length_app, L1, L2, L3, L4 in E. vm_compute in E.
    discriminate E.
  - split; vm_compute; reflexivity.
Qed.

(** Outside these bounds the timestamp is not given back: 99 minutes
    come out as 1 hour 39 minutes.  And [parse_time], the parser of the
    range file, stops before the comma of a subtitle timestamp, so the
    milliseconds are lost on that path. *)
Example round_trip_needs_minutes_below_60 :
  sec_to_srt_time (srt_time_to_sec ("00", "99", "00", "000")) = "01:39:00,000"
  /\ (exists q, parse_time "01:02:03,456" = Ok q
        /\ sec_to_srt_time q = "01:02:03,000").
Proof.
  split; [vm_compute; reflexivity|].
  eexists. split; [reflexivity|]. vm_compute. reflexivity.
Qed.

Lemma srt_time_round_trip_witness :
  findall "01:02:03,456" = [("01", "02", "03", "456")]
  /\ sec_to_srt_time (srt_time_to_sec ("01", "02", "03", "456")) = "01:02:03,456".
Proof.
  apply (srt_time_round_trip "01" "02" "03" "456"); reflexivity.
Defined.

(** * Further properties of the parsers, the planner and the re-timer *)

Open Scope Z_scope.

(** ** The time parser *)



Lemma span_app (p : ascii -> bool) (a rest : string) :
  all_chars p a = true -> starts_with p rest = false ->
  Str.span p (a ++ rest) = (a, rest).
Proof.
  intros Ha Hr. induction a as [|c a IH]; simpl in *.
  - destruct rest as [|c r]; simpl in *; [reflexivity|]. now rewrite Hr.
  - apply andb_prop in Ha as [Hc Ha]. rewrite Hc, (IH Ha). reflexivity.
Qed.

Lemma span_spec (p : ascii -> bool) (s : string) :
  forall a r, Str.span p s = (a, r) ->
  s = a ++ r /\ all_chars p a = true /\ starts_with p r = false.
Proof.
  induction s as [|c s IH]; intros a r H; simpl in H.
  - injection H as <- <-. auto.
  - destruct (p c) eqn:Hc.
    + destruct (Str.span p s) as [a' r'] eqn:E. injection H as <- <-.
      destruct (IH a' r' eq_refl) as (-> & Ha & Hr). simpl. rewrite Hc. auto.
    + injection H as <- <-. simpl. rewrite Hc. auto.
Qed.

Lemma all_chars_digits (s : string) : all_chars Str.is_digit s = all_digits s.
Proof. induction s as [|c s IH]; [reflexivity | simpl; now rewrite IH]. Qed.

Lemma digit_val_nonneg (c : ascii) : Str.is_digit c = true -> 0 <= Str.digit_val c <= 9.
Proof.
  unfold Str.is_digit, Str.digit_val. rewrite andb_true_iff, !N.leb_le.
  intros [H1 H2]. split; lia.
Qed.

Lemma int_acc_nonneg (s : string) :
  all_digits s = true -> forall acc, 0 <= acc -> 0 <= Str.int_acc acc s.
Proof.
  induction s as [|c s IH]; intros H acc Hacc; cbn [Str.int_acc]; [exact Hacc|].
  cbn [all_digits] in H. apply andb_prop in H as [Hc Hs].
  apply IH; [exact Hs|]. pose proof (digit_val_nonneg c Hc). lia.
Qed.

Lemma int_of_nonneg (s : string) : all_digits s = true -> 0 <= Str.int_of s.
Proof. intros H. apply int_acc_nonneg; [exact H | lia]. Qed.

Lemma cut_dot_digits (s : string) :
  all_digits s = true -> Str.cut "." s = None.
Proof.
  induction s as [|c s IH]; intros H; [reflexivity|].
  simpl in H. apply andb_prop in H as [Hc Hs].
  cbn [Str.cut Str.strip_prefix].
  destruct (Ascii.eqb "." c) eqn:E.
  - apply Ascii.eqb_eq in E. subst c. discriminate Hc.
  - now rewrite (IH Hs).
Qed.

Lemma cut_dot_app (i f : string) :
  all_digits i = true -> Str.cut "." (i ++ "." ++ f) = Some (i, f).
Proof.
  induction i as [|c i IH]; intros H; [reflexivity|].
  simpl in H. apply andb_prop in H as [Hc Hs].
  cbn [append Str.cut Str.strip_prefix].
  destruct (Ascii.eqb "." c) eqn:E.
  - apply Ascii.eqb_eq in E. subst c. discriminate Hc.
  - change (String "." f) with ("." ++ f). now rewrite (IH Hs).
Qed.

Lemma float_of_nonneg_int (s : string) :
  all_digits s = true -> float_of s = inject_Z (Str.int_of s).
Proof. intros H. unfold float_of. now rewrite (cut_dot_digits s H). Qed.

Open Scope Q_scope.

Lemma inject_Z_nonneg (z : Z) : (0 <= z)%Z -> 0 <= inject_Z z.
Proof. intros H. change 0 with (inject_Z 0). now rewrite <- Zle_Qle. Qed.

Lemma float_of_frac_nonneg (i f : string) :
  all_digits i = true -> all_digits f = true ->
  0 <= float_of (i ++ "." ++ f).
Proof.
  intros Hi Hf. unfold float_of. rewrite (cut_dot_app i f Hi).
  pose proof (inject_Z_nonneg _ (int_of_nonneg i Hi)) as H1.
  pose proof (inject_Z_nonneg _ (int_of_nonneg f Hf)) as H2.
  assert (H3 : 0 <= inject_Z (Str.int_of f) / inject_Z (10 ^ Z.of_nat (String.length f))).
  { apply Qle_shift_div_l.
    - change 0 with (inject_Z 0). rewrite <- Zlt_Qlt. apply Z.pow_pos_nonneg; lia.
    - now rewrite Qmult_0_l. }
  lra.
Qed.

Lemma re_time_app (a b r : string) :
  all_digits a = true -> a <> EmptyString ->
  all_digits b = true -> b <> EmptyString ->
  starts_with_digit r = false ->
  re_time (a ++ ":" ++ b ++ r) = Some (a, b, seconds_group r).
Proof.
  intros Ha Hna Hb Hnb Hr. unfold re_time.
  rewrite (span_digits_app a (":" ++ b ++ r) Ha eq_refl), (truthy_nonempty a Hna).
  change (Str.strip_prefix ":" (":" ++ b ++ r)) with (Some (b ++ r)%string).
  cbv beta iota.
  now rewrite (span_digits_app b r Hb Hr), (truthy_nonempty b Hnb).
Qed.

Lemma seconds_group_whole (c rest : string) :
  all_digits c = true -> c <> EmptyString ->
  starts_with_digit rest = false -> Str.strip_prefix "." rest = None ->
  seconds_group (":" ++ c ++ rest) = Some c.
Proof.
  intros Hc Hnc Hr Hdot. unfold seconds_group.
  change (Str.strip_prefix ":" (":" ++ c ++ rest)) with (Some (c ++ rest)%string).
  cbv beta iota.
  now rewrite (span_digits_app c rest Hc Hr), (truthy_nonempty c Hnc), Hdot.
Qed.

Lemma seconds_group_fraction (c f rest : string) :
  all_digits c = true -> c <> EmptyString ->
  all_digits f = true -> f <> EmptyString ->
  starts_with_digit rest = false ->
  seconds_group (":" ++ c ++ "." ++ f ++ rest) = Some (c ++ "." ++ f)%string.
Proof.
  intros Hc Hnc Hf Hnf Hr. unfold seconds_group.
  change (Str.strip_prefix ":" (":" ++ c ++ "." ++ f ++ rest))
    with (Some (c ++ "." ++ f ++ rest)%string).
  cbv beta iota.
  rewrite (span_digits_app c ("." ++ f ++ rest) Hc eq_refl), (truthy_nonempty c Hnc).
  change (Str.strip_prefix "." ("." ++ f ++ rest)) with (Some (f ++ rest)%string).
  cbv beta iota.
  now rewrite (span_digits_app f rest Hf Hr), (truthy_nonempty f Hnf).
Qed.

(** X1.  A string [a:b:c] of three digit groups is a*3600 + b*60 + c
    seconds, and [a:b:c.f] adds the fraction f / 10^(digits of f);
    what follows the seconds is not read. *)
Theorem parse_time_three_part (a b c rest : string) :
  all_digits a = true -> a <> EmptyString ->
  all_digits b = true -> b <> EmptyString ->
  all_digits c = true -> c <> EmptyString ->
  starts_with_digit rest = false ->
  (Str.strip_prefix "." rest = None ->
   parse_time (a ++ ":" ++ b ++ ":" ++ c ++ rest)
   = Ok (inject_Z (Str.int_of a * 3600 + Str.int_of b * 60)
         + inject_Z (Str.int_of c)))
  /\ (forall f : string, all_digits f = true -> f <> EmptyString ->
      parse_time (a ++ ":" ++ b ++ ":" ++ c ++ "." ++ f ++ rest)
      = Ok (inject_Z (Str.int_of a * 3600 + Str.int_of b * 60)
            + (inject_Z (Str.int_of c)
               + inject_Z (Str.int_of f)
                 / inject_Z (10 ^ Z.of_nat (String.length f))))).
Proof.
  intros Ha Hna Hb Hnb Hc Hnc Hr. split.
  - intros Hdot. unfold parse_time.
    rewrite (re_time_app a b (":" ++ c ++ rest) Ha Hna Hb Hnb eq_refl).
    rewrite (seconds_group_whole c rest Hc Hnc Hr Hdot). cbn [groups_default].
    now rewrite (float_of_nonneg_int c Hc).
  - intros f Hf Hnf. unfold parse_time.
    rewrite (re_time_app a b (":" ++ c ++ "." ++ f ++ rest) Ha Hna Hb Hnb eq_refl).
    rewrite (seconds_group_fraction c f rest Hc Hnc Hf Hnf Hr).
    cbn [groups_default]. unfold float_of. now rewrite (cut_dot_app c f Hc).
Qed.

Lemma parse_time_three_part_witness :
  parse_time "1:02:03.5"
  = Ok (inject_Z (Str.int_of "1" * 3600 + Str.int_of "02" * 60)
        + (inject_Z (Str.int_of "03")
           + inject_Z (Str.int_of "5") / inject_Z (10 ^ Z.of_nat (String.length "5")))).
Proof.
  exact (proj2 (parse_time_three_part "1" "02" "03" ""
                  eq_refl ltac:(discriminate) eq_refl ltac:(discriminate)
                  eq_refl ltac:(discriminate) eq_refl)
               "5" eq_refl ltac:(discriminate)).
Defined.

Lemma seconds_group_nonneg (r s : string) :
  seconds_group r = Some s -> 0 <= float_of s.
Proof.
  unfold seconds_group. destruct (Str.strip_prefix ":" r) as [r1|]; [|discriminate].
  destruct (Str.span Str.is_digit r1) as [si r2] eqn:E1.
  destruct (span_spec _ _ _ _ E1) as (_ & Hsi & _). rewrite all_chars_digits in Hsi.
  destruct (Str.truthy si); [|discriminate].
  assert (Hint : 0 <= float_of si).
  { rewrite (float_of_nonneg_int si Hsi). apply inject_Z_nonneg, int_of_nonneg, Hsi. }
  destruct (Str.strip_prefix "." r2) as [r3|]; [|intros [= <-]; exact Hint].
  destruct (Str.span Str.is_digit r3) as [sf r4] eqn:E2.
  destruct (span_spec _ _ _ _ E2) as (_ & Hsf & _). rewrite all_chars_digits in Hsf.
  destruct (Str.truthy sf); intros [= <-]; [|exact Hint].
  now apply float_of_frac_nonneg.
Qed.

Lemma parse_time_nonneg (time_str : string) (q : Q) :
  parse_time time_str = Ok q -> 0 <= q.
Proof.
  unfold parse_time, re_time.
  destruct (Str.span Str.is_digit time_str) as [h r1] eqn:E1.
  destruct (span_spec _ _ _ _ E1) as (Hs & Hh & _). rewrite all_chars_digits in Hh.
  destruct (Str.truthy h); [|discriminate].
  destruct (Str.strip_prefix ":" r1) as [r2|]; [|discriminate].
  destruct (Str.span Str.is_digit r2) as [m r3] eqn:E2.
  destruct (span_spec _ _ _ _ E2) as (_ & Hm & _). rewrite all_chars_digits in Hm.
  destruct (Str.truthy m); [|discriminate].
  intros [= <-].
  pose proof (int_of_nonneg h Hh). pose proof (int_of_nonneg m Hm).
  assert (0 <= inject_Z (Str.int_of h * 3600 + Str.int_of m * 60))
    by (apply inject_Z_nonneg; lia).
  assert (0 <= float_of (groups_default "0" (seconds_group r3))).
  { destruct (seconds_group r3) as [s|] eqn:Es; cbn [groups_default].
    - exact (seconds_group_nonneg _ _ Es).
    - vm_compute. discriminate. }
  lra.
Qed.

Lemma parse_time_error (time_str : string) (e : exn) :
  parse_time time_str = Raise e -> e = ValueError ("Invalid time: " ++ time_str).
Proof.
  unfold parse_time. destruct (re_time time_str) as [[[h m] s3]|];
    [discriminate | now intros [= <-]].
Qed.

Lemma cut_char_app (ch : ascii) (a r : string) :
  Str.cut (String ch EmptyString) (a ++ String ch r) <> None.
Proof.
  induction a as [|c a IH].
  - cbn [append Str.cut Str.strip_prefix]. rewrite Ascii.eqb_refl. discriminate.
  - cbn [append Str.cut Str.strip_prefix].
    destruct (Ascii.eqb ch c); [discriminate|].
    destruct (Str.cut (String ch EmptyString) (a ++ String ch r)) as [[x y]|];
      [intros H; discriminate H | now destruct IH].
Qed.

Lemma strip_prefix_char (ch : ascii) (r : string) :
  forall r', Str.strip_prefix (String ch EmptyString) r = Some r' -> r = String ch r'.
Proof.
  destruct r as [|c r]; intros r' H; [discriminate|].
  cbn [Str.strip_prefix] in H.
  destruct (Ascii.eqb ch c) eqn:E; [|discriminate].
  apply Ascii.eqb_eq in E. subst c. now injection H as <-.
Qed.

(** A string without [ch] has no [ch] after any of its prefixes. *)
Lemma no_char_no_prefix (ch : ascii) (a r : string) :
  Str.contains (String ch EmptyString) (a ++ r) = false ->
  Str.strip_prefix (String ch EmptyString) r = None.
Proof.
  intros Hc. destruct (Str.strip_prefix (String ch EmptyString) r) as [r'|] eqn:E;
    [|reflexivity].
  apply strip_prefix_char in E. subst r. unfold Str.contains in Hc.
  pose proof (cut_char_app ch a r') as Hn.
  destruct (Str.cut (String ch EmptyString) (a ++ String ch r'));
    [discriminate | contradiction].
Qed.

Lemma parse_time_needs_colon (time_str : string) :
  Str.contains ":" time_str = false ->
  parse_time time_str = Raise (ValueError ("Invalid time: " ++ time_str)).
Proof.
  intros Hc. unfold parse_time, re_time.
  destruct (Str.span Str.is_digit time_str) as [h r1] eqn:E1.
  destruct (span_spec _ _ _ _ E1) as (Hs & _ & _). subst time_str.
  rewrite (no_char_no_prefix ":" h r1 Hc). now destruct (Str.truthy h).
Qed.

(** ** The range validator *)

Lemma parse_range_line_ok (line : string) (r : TimeRange) :
  parse_range_line line = Ok r ->
  line_times line = Some r /\ proper r /\ 0 <= fst r.
Proof.
  unfold parse_range_line, line_times.
  destruct (re_range line) as [[g1 g2]|]; [|discriminate].
  destruct (parse_time g1) as [s|] eqn:E1; [|discriminate].
  destruct (parse_time g2) as [e|]; [|discriminate]. cbn [bind].
  destruct (Num.ge s e) eqn:G; [discriminate|]. intros [= <-].
  apply ge_false in G. repeat split; [exact G|].
  exact (parse_time_nonneg g1 s E1).
Qed.

Lemma parse_range_lines_inv (lines : list string) :
  forall rs, parse_range_lines lines = Ok rs ->
  Forall2 (fun l r => parse_range_line l = Ok r) lines rs.
Proof.
  induction lines as [|l lines IH]; intros rs H; cbn [parse_range_lines] in H.
  - injection H as <-. constructor.
  - destruct (parse_range_line l) as [r|] eqn:E; [|discriminate]. cbn [bind] in H.
    destruct (parse_range_lines lines) as [rs'|]; [|discriminate].
    cbn [bind] in H. injection H as <-. constructor; [exact E | now apply IH].
Qed.

Lemma parse_time_ranges_file_inv (file_lines : list string) (ranges : list TimeRange) :
  parse_time_ranges_file file_lines = Ok ranges ->
  parse_range_lines (stripped_lines file_lines) = Ok ranges /\ ordered ranges.
Proof.
  unfold parse_time_ranges_file.
  destruct (parse_range_lines (stripped_lines file_lines)) as [rs|]; [|discriminate].
  cbn [bind]. destruct (check_order rs) as [[]|] eqn:E; [|discriminate].
  cbn [bind]. intros [= <-]. split; [reflexivity | now apply check_order_ok].
Qed.

Lemma validated_proper (file_lines : list string) (ranges : list TimeRange) :
  parse_time_ranges_file file_lines = Ok ranges ->
  Forall proper ranges /\ ordered ranges /\ Forall (fun r => 0 <= fst r) ranges.
Proof.
  intros H. apply parse_time_ranges_file_inv in H as [H Ho].
  apply parse_range_lines_inv in H.
  split; [|split; [exact Ho|]].
  - clear Ho. induction H as [|l r ls rs Hl _ IH]; constructor; [|exact IH].
    now apply parse_range_line_ok in Hl.
  - clear Ho. induction H as [|l r ls rs Hl _ IH]; constructor; [|exact IH].
    now apply parse_range_line_ok in Hl.
Qed.

Lemma ordered_pairwise (ranges : list TimeRange) :
  Forall proper ranges -> ordered ranges ->
  forall i j ri rj, (i < j)%nat ->
  nth_error ranges i = Some ri -> nth_error ranges j = Some rj ->
  snd ri <= fst rj.
Proof.
  induction ranges as [|r rest IH]; intros Hp Ho i j ri rj Hij Hi Hj.
  - now destruct i.
  - inversion Hp as [|? ? Hr Hrest]; subst.
    destruct j as [|j]; [lia|]. cbn [nth_error] in Hj.
    destruct i as [|i].
    + injection Hi as <-. apply (ordered_later r rest Hrest Ho).
      eapply nth_error_In, Hj.
    + cbn [nth_error] in Hi.
      apply (IH Hrest (ordered_tail _ _ Ho) i j); [lia | assumption..].
Qed.

(** X3.  Whatever the validator returns is the list of the ranges of
    the non-blank lines, in file order, every range with
    0 <= start < end, and every range ends no later than any later
    range starts. *)
Theorem validated_ranges_invariant
    (file_lines : list string) (ranges : list TimeRange) :
  parse_time_ranges_file file_lines = Ok ranges ->
  Forall2 (fun l r => line_times l = Some r) (stripped_lines file_lines) ranges
  /\ Forall (fun r => 0 <= fst r /\ fst r < snd r) ranges
  /\ (forall i j ri rj, (i < j)%nat ->
        nth_error ranges i = Some ri -> nth_error ranges j = Some rj ->
        snd ri <= fst rj).
Proof.
  intros H. destruct (validated_proper _ _ H) as (Hp & Ho & Hn).
  split; [|split].
  - apply parse_time_ranges_file_inv in H as [H _].
    apply parse_range_lines_inv in H.
    eapply Forall2_impl; [|exact H].
    intros l r Hl. now apply parse_range_line_ok in Hl.
  - rewrite Forall_forall in *. intros r Hr. split; [now apply Hn | now apply Hp].
  - now apply ordered_pairwise.
Qed.

Lemma validated_ranges_invariant_witness :
  Forall (fun r => 0 <= fst r /\ fst r < snd r) [(300, 900); (900, 2400)].
Proof.
  destruct (validated_ranges_invariant
              ["0:05-0:15"; " "; "0:15-0:40 "]%string [(300, 900); (900, 2400)]
              eq_refl) as (_ & H & _).
  exact H.
Defined.

Lemma parse_range_lines_app (pre rest : list string) (rs : list TimeRange) :
  parse_range_lines pre = Ok rs ->
  parse_range_lines (pre ++ rest)
  = bind (parse_range_lines rest) (fun rs' => Ok (rs ++ rs')%list).
Proof.
  revert rs. induction pre as [|l pre IH]; intros rs H; cbn [parse_range_lines] in H.
  - injection H as <-. cbn [app]. now destruct (parse_range_lines rest).
  - cbn [app parse_range_lines].
    destruct (parse_range_line l) as [r|]; [|discriminate]. cbn [bind] in *.
    destruct (parse_range_lines pre) as [rs'|]; [|discriminate].
    cbn [bind] in H. injection H as <-. rewrite (IH rs' eq_refl).
    now destruct (parse_range_lines rest).
Qed.

Lemma first_bad_line (file_lines pre post : list string) (l : string)
    (rs : list TimeRange) (e : exn) :
  stripped_lines file_lines = (pre ++ l :: post)%list ->
  parse_range_lines pre = Ok rs ->
  parse_range_line l = Raise e ->
  parse_time_ranges_file file_lines = Raise e.
Proof.
  intros Hs Hpre Hl. unfold parse_time_ranges_file.
  rewrite Hs, (parse_range_lines_app pre (l :: post) rs Hpre).
  cbn [parse_range_lines]. now rewrite Hl.
Qed.

Lemma re_range_needs_hyphen (line : string) :
  Str.contains "-" line = false -> re_range line = None.
Proof.
  intros Hc. unfold re_range.
  destruct (Str.span is_time_char line) as [g1 r1] eqn:E1.
  destruct (span_spec _ _ _ _ E1) as (Hs & _ & _). subst line.
  rewrite (no_char_no_prefix "-" g1 r1 Hc). now destruct (Str.truthy g1).
Qed.

(** X4.  After lines that parse, the first line at fault decides the
    error: a line without a hyphen raises the error that quotes the
    line, a start time without a colon raises the error of the time
    parser that quotes that time, and so does such an end time after a
    start time that parses. *)
Theorem malformed_range_line
    (file_lines pre post : list string) (l : string) (rs : list TimeRange) :
  stripped_lines file_lines = (pre ++ l :: post)%list ->
  parse_range_lines pre = Ok rs ->
  (Str.contains "-" l = false ->
   parse_time_ranges_file file_lines
   = Raise (ValueError ("Invalid time range: " ++ l)))
  /\ (forall g1 g2, re_range l = Some (g1, g2) ->
      Str.contains ":" g1 = false ->
      parse_time_ranges_file file_lines
      = Raise (ValueError ("Invalid time: " ++ g1)))
  /\ (forall g1 g2 s, re_range l = Some (g1, g2) ->
      parse_time g1 = Ok s -> Str.contains ":" g2 = false ->
      parse_time_ranges_file file_lines
      = Raise (ValueError ("Invalid time: " ++ g2))).
Proof.
  intros Hs Hpre. repeat split.
  - intros Hc. apply (first_bad_line _ _ _ _ _ _ Hs Hpre).
    unfold parse_range_line. now rewrite (re_range_needs_hyphen l Hc).
  - intros g1 g2 Hre Hc. apply (first_bad_line _ _ _ _ _ _ Hs Hpre).
    unfold parse_range_line. now rewrite Hre, (parse_time_needs_colon g1 Hc).
  - intros g1 g2 s Hre H1 Hc. apply (first_bad_line _ _ _ _ _ _ Hs Hpre).
    unfold parse_range_line.
    now rewrite Hre, H1, (parse_time_needs_colon g2 Hc).
Qed.

Lemma malformed_range_line_witness :
  parse_time_ranges_file ["0:05-0:15"; "0:20 0:30"]%string
  = Raise (ValueError "Invalid time range: 0:20 0:30").
Proof.
  destruct (malformed_range_line ["0:05-0:15"; "0:20 0:30"]%string
              ["0:05-0:15"]%string [] "0:20 0:30" [(300, 900)] eq_refl eq_refl)
    as [H _].
  exact (H eq_refl).
Defined.

(** ** White space *)

Lemma lstrip_spaces (ws s : string) :
  all_chars Str.is_space ws = true -> Str.lstrip (ws ++ s) = Str.lstrip s.
Proof.
  induction ws as [|c ws IH]; intros H; [reflexivity|].
  cbn [all_chars] in H. apply andb_prop in H as [Hc Hws].
  cbn [append Str.lstrip]. rewrite Hc. now apply IH.
Qed.

Lemma lstrip_all_spaces (ws : string) :
  all_chars Str.is_space ws = true -> Str.lstrip ws = EmptyString.
Proof.
  induction ws as [|c ws IH]; intros H; [reflexivity|].
  cbn [all_chars] in H. apply andb_prop in H as [Hc Hws].
  cbn [Str.lstrip]. rewrite Hc. now apply IH.
Qed.

Lemma rstrip_spaces (s ws : string) :
  all_chars Str.is_space ws = true -> Str.rstrip (s ++ ws) = Str.rstrip s.
Proof.
  intros H. induction s as [|c s IH].
  - cbn [append]. induction ws as [|w ws IHw]; [reflexivity|].
    cbn [all_chars] in H. apply andb_prop in H as [Hw Hws].
    cbn [Str.rstrip]. now rewrite (IHw Hws), Hw.
  - cbn [append Str.rstrip]. now rewrite IH.
Qed.

Lemma lstrip_app (s ws : string) :
  Str.lstrip (s ++ ws) = (Str.lstrip s ++ ws)%string
  \/ (Str.lstrip s = EmptyString /\ Str.lstrip (s ++ ws) = Str.lstrip ws).
Proof.
  induction s as [|c s IH]; [now right|].
  cbn [append Str.lstrip]. destruct (Str.is_space c); [exact IH | now left].
Qed.

Lemma strip_padded (lead s trail : string) :
  all_chars Str.is_space lead = true -> all_chars Str.is_space trail = true ->
  Str.strip (lead ++ s ++ trail) = Str.strip s.
Proof.
  intros Hl Ht. unfold Str.strip. rewrite (lstrip_spaces lead _ Hl).
  destruct (lstrip_app s trail) as [E|[E1 E2]].
  - rewrite E. now apply rstrip_spaces.
  - now rewrite E2, E1, (lstrip_all_spaces trail Ht).
Qed.

Lemma stripped_lines_padded (ls ls' : list string) :
  Forall2 padded ls ls' -> stripped_lines ls' = stripped_lines ls.
Proof.
  unfold stripped_lines. induction 1 as [|l l' ls ls' Hp _ IH]; [reflexivity|].
  destruct Hp as [lead trail Hl Ht]. cbn [filter].
  rewrite (strip_padded lead l trail Hl Ht).
  destruct (Str.truthy (Str.strip l)); cbn [map];
    [rewrite (strip_padded lead l trail Hl Ht)|]; now rewrite IH.
Qed.

Lemma strip_blank (b : string) :
  all_chars Str.is_space b = true -> Str.strip b = EmptyString.
Proof. intros Hb. unfold Str.strip. now rewrite (lstrip_all_spaces b Hb). Qed.

Lemma stripped_lines_skip_blank (ls1 ls2 : list string) (b : string) :
  all_chars Str.is_space b = true ->
  stripped_lines (ls1 ++ b :: ls2) = stripped_lines (ls1 ++ ls2).
Proof.
  intros Hb. unfold stripped_lines. rewrite !filter_app. cbn [filter].
  now rewrite (strip_blank b Hb).
Qed.

(** X5.  White space around the lines of the range file and lines of
    white space only do not change what the validator returns or
    raises. *)
Theorem range_file_white_space_is_ignored :
  (forall ls ls', Forall2 padded ls ls' ->
     parse_time_ranges_file ls' = parse_time_ranges_file ls)
  /\ (forall ls1 ls2 b, all_chars Str.is_space b = true ->
      parse_time_ranges_file (ls1 ++ b :: ls2) = parse_time_ranges_file (ls1 ++ ls2)).
Proof.
  split.
  - intros ls ls' H. unfold parse_time_ranges_file.
    now rewrite (stripped_lines_padded ls ls' H).
  - intros ls1 ls2 b Hb. unfold parse_time_ranges_file.
    now rewrite (stripped_lines_skip_blank ls1 ls2 b Hb).
Qed.

(** ** Text after a range *)

(** X6.  The pattern of a range line reads the two longest runs of
    digits, colons and dots around the first hyphen; text after the
    second run is not read, so a line with trailing text gives the range
    of the line without it. *)
Theorem range_line_trailing_text (g1 g2 rest : string) :
  all_chars is_time_char g1 = true -> g1 <> EmptyString ->
  all_chars is_time_char g2 = true -> g2 <> EmptyString ->
  starts_with is_time_char rest = false ->
  re_range (g1 ++ "-" ++ g2 ++ rest) = Some (g1, g2)
  /\ line_times (g1 ++ "-" ++ g2 ++ rest) = line_times (g1 ++ "-" ++ g2)
  /\ (forall r, parse_range_line (g1 ++ "-" ++ g2 ++ rest) = Ok r
              <-> parse_range_line (g1 ++ "-" ++ g2) = Ok r).
Proof.
  intros H1 N1 H2 N2 Hr.
  assert (E : forall tail, starts_with is_time_char tail = false ->
              re_range (g1 ++ "-" ++ g2 ++ tail) = Some (g1, g2)).
  { intros tail Ht. unfold re_range.
    rewrite (span_app is_time_char g1 ("-" ++ g2 ++ tail) H1 eq_refl),
      (truthy_nonempty g1 N1).
    change (Str.strip_prefix "-" ("-" ++ g2 ++ tail)) with (Some (g2 ++ tail)%string).
    cbv beta iota.
    now rewrite (span_app is_time_char g2 tail H2 Ht), (truthy_nonempty g2 N2). }
  pose proof (E rest Hr) as Er. pose proof (E EmptyString eq_refl) as E0.
  rewrite (append_empty g2) in E0.
  split; [exact Er|]. split.
  - unfold line_times. now rewrite Er, E0.
  - intros r. unfold parse_range_line. rewrite Er, E0.
    destruct (parse_time g1) as [s|]; cbn [bind]; [|split; discriminate].
    destruct (parse_time g2) as [e|]; cbn [bind]; [|split; discriminate].
    destruct (Num.ge s e); [split; discriminate | tauto].
Qed.

Lemma range_line_trailing_text_witness :
  re_range "0:05-0:15 intro" = Some ("0:05", "0:15")%string.
Proof.
  exact (proj1 (range_line_trailing_text "0:05" "0:15" " intro"
                  eq_refl ltac:(discriminate) eq_refl ltac:(discriminate)
                  eq_refl)).
Defined.



(** ** The cutter and the orchestrator *)




Lemma cut_from_durations (f : Q) (ranges : list TimeRange) :
  forall k, map call_duration (cut_from f k ranges) = map duration ranges.
Proof.
  induction ranges as [|[s e] rest IH]; intros k; [reflexivity|].
  cbn [cut_from map]. rewrite IH. f_equal.
  unfold cut_segment, duration. cbn [fst snd]. now destruct (Num.gt f 0).
Qed.

(** X8.  The offset the re-timer uses for segment [k] is the sum of
    the durations the cutter asks the engine for in its first [k]
    calls, whatever the fade. *)
Theorem offsets_match_cut_durations (ranges : list TimeRange) (f : Q) (k : nat) :
  seg_offset ranges k
  = py_sum (map call_duration (firstn k (fst (cut_and_fade_segments ranges f)))).
Proof.
  unfold seg_offset, cut_and_fade_segments. cbn [fst].
  now rewrite <- firstn_map, <- firstn_map, cut_from_durations.
Qed.

Lemma min_le_all (ranges : list TimeRange) (m : Q) :
  get_min_duration ranges = Ok m ->
  forall r, In r ranges -> m <= duration r.
Proof.
  intros Hm. destruct ranges as [|r0 rest]; [discriminate|].
  destruct (get_min_duration_spec (r0 :: rest) ltac:(discriminate))
    as (m' & Hm' & _ & Hle).
  rewrite Hm in Hm'. injection Hm' as <-. exact Hle.
Qed.









(** ** Errors of the re-timer *)

Lemma cue_times_error (line : string) (e : exn) :
  cue_times line = Raise e -> e = unpack_error.
Proof.
  unfold cue_times. destruct (Str.contains "-->" line); [|discriminate].
  destruct (Str.split "-->" line) as [|t1 [|t2 [|t3 ts]]];
    try (now intros [= <-]).
  destruct (findall t1), (findall t2); discriminate.
Qed.

Lemma scan_lines_raises (seg : nat) (start end_ off : Q) (lines : list string) :
  arrows_ok lines = false ->
  forall i st, scan_lines seg start end_ off i lines st = Raise unpack_error.
Proof.
  induction lines as [|l ls IH]; intros H i st; [discriminate|].
  cbn [arrows_ok forallb] in H. cbn [scan_lines].
  destruct (cue_times l) as [c|e] eqn:E.
  - cbn [bind]. apply IH. exact H.
  - cbn [bind]. now rewrite (cue_times_error l e E).
Qed.

Lemma arrows_ok_false (srt_lines : list string) :
  arrows_ok srt_lines = false <->
  exists line, In line srt_lines /\ cue_times line = Raise unpack_error.
Proof.
  unfold arrows_ok. split.
  - intros H. induction srt_lines as [|l ls IH]; [discriminate|].
    cbn [forallb] in H. destruct (cue_times l) as [c|e] eqn:E.
    + destruct (IH H) as (line & Hin & Hl). exists line. split; [now right | exact Hl].
    + exists l. split; [now left|]. now rewrite E, (cue_times_error l e E).
  - intros (line & Hin & Hl). apply not_true_iff_false. intros H.
    rewrite forallb_forall in H. specialize (H line Hin). now rewrite Hl in H.
Qed.

(** X13.  The re-timer raises only the unpacking [ValueError], and it
    does so exactly when there is at least one range and some line of
    the subtitle file contains the arrow and does not split into two
    parts around it. *)
Theorem adjust_subtitle_raises_iff
    (srt_lines : list string) (ranges : list TimeRange) :
  (adjust_subtitle srt_lines ranges = Raise unpack_error
   <-> ranges <> []
       /\ exists line, In line srt_lines /\ Str.contains "-->" line = true
                       /\ List.length (Str.split "-->" line) <> 2%nat)
  /\ (forall e, adjust_subtitle srt_lines ranges = Raise e -> e = unpack_error).
Proof.
  assert (Hline : forall line,
            cue_times line = Raise unpack_error
            <-> Str.contains "-->" line = true
                /\ List.length (Str.split "-->" line) <> 2%nat).
  { intros line. unfold cue_times. destruct (Str.contains "-->" line).
    - destruct (Str.split "-->" line) as [|t1 [|t2 [|t3 ts]]]; cbn [List.length].
      + split; [intros _; split; [reflexivity | lia] | reflexivity].
      + split; [intros _; split; [reflexivity | lia] | reflexivity].
      + split; [|intros [_ H]; now destruct H].
        destruct (findall t1), (findall t2); discriminate.
      + split; [intros _; split; [reflexivity | lia] | reflexivity].
    - split; [discriminate | now intros [H _]]. }
  assert (Hbad : arrows_ok srt_lines = false
                 <-> exists line, In line srt_lines
                       /\ Str.contains "-->" line = true
                       /\ List.length (Str.split "-->" line) <> 2%nat).
  { rewrite arrows_ok_false. split; intros (line & Hin & H); exists line;
      (split; [exact Hin | now apply Hline]). }
  rewrite <- Hbad. clear Hline Hbad.
  destruct (arrows_ok srt_lines) eqn:Hok.
  - pose proof (retime_spec ranges srt_lines Hok) as Hr. cbv zeta in Hr.
    unfold adjust_subtitle. rewrite Hr. cbn [bind]. split.
    + split; [discriminate | now intros [_ H]].
    + discriminate.
  - unfold adjust_subtitle, retime. destruct ranges as [|[start end_] rest].
    + cbn [scan_ranges bind]. split; [|discriminate].
      split; [discriminate | now intros [H _]].
    + cbn [scan_ranges]. rewrite (scan_lines_raises _ _ _ _ _ Hok). cbn [bind].
      split; [|now intros e [= <-]].
      split; [intros _; split; [discriminate | reflexivity] | reflexivity].
Qed.



(** ** The output timeline *)

Lemma py_sum_snoc (xs : list Q) (x : Q) : py_sum (xs ++ [x]) = py_sum xs + x.
Proof. unfold py_sum. now rewrite fold_left_app. Qed.







(** ** The order of the output *)

Lemma sorted_app {A : Type} (R : A -> A -> Prop) (l1 l2 : list A) :
  StronglySorted R l1 -> StronglySorted R l2 ->
  (forall x y, In x l1 -> In y l2 -> R x y) ->
  StronglySorted R (l1 ++ l2).
Proof.
  intros H1 H2 H. induction H1 as [|a l1 Hs IH Ha]; [exact H2|].
  cbn [app]. constructor.
  - apply IH. intros x y Hx Hy. apply H; [now right | exact Hy].
  - apply Forall_app. split; [exact Ha|].
    apply Forall_forall. intros y Hy. apply H; [now left | exact Hy].
Qed.

Lemma cues_from_lines (j : nat) (lines : list string) :
  StronglySorted (fun a b => (cue_line a < cue_line b)%nat) (cues_from j lines).
Proof.
  revert j. induction lines as [|l ls IH]; intros j; [constructor|].
  cbn [cues_from]. destruct (cue_times l) as [[[s e]|]|]; try apply IH.
  constructor; [apply IH|]. apply Forall_forall. intros c Hc.
  apply in_cues_from in Hc as [Hle _]. cbn [cue_line]. lia.
Qed.

Lemma hits_sorted (seg : nat) (r : TimeRange) (off : Q) (cs : list cue) :
  StronglySorted (fun a b => (cue_line a < cue_line b)%nat) cs ->
  StronglySorted em_before (hits seg r off cs).
Proof.
  induction 1 as [|c cs Hs IH Hc]; [constructor|].
  rewrite hits_cons. destruct (inside r c); [|exact IH].
  constructor; [exact IH|]. apply Forall_forall. intros em Hem.
  unfold hits in Hem. apply in_map_iff in Hem as (c' & <- & Hc').
  apply filter_In in Hc' as [Hc' _]. rewrite Forall_forall in Hc.
  right. cbn [shifted em_seg em_line]. split; [reflexivity | now apply Hc].
Qed.

Lemma all_hits_sorted (ranges : list TimeRange) (cs : list cue) :
  StronglySorted (fun a b => (cue_line a < cue_line b)%nat) cs ->
  forall todo seg, StronglySorted em_before (all_hits ranges seg todo cs).
Proof.
  intros Hcs. induction todo as [|r rest IH]; intros seg; [constructor|].
  cbn [all_hits]. apply sorted_app; [now apply hits_sorted | apply IH|].
  intros x y Hx Hy. left.
  unfold hits in Hx. apply in_map_iff in Hx as (c & <- & _).
  apply in_all_hits in Hy as (k & r' & c' & _ & _ & _ & ->).
  cbn [shifted em_seg]. lia.
Qed.

(** X16.  The output holds one block per emission, numbered from 1
    without a gap, and the emissions are in strictly increasing order
    of segment and, within a segment, of line in the subtitle file: no
    cue is written twice for the same segment. *)
Theorem output_follows_ranges_then_file_order
    (ranges : list TimeRange) (srt_lines : list string) :
  arrows_ok srt_lines = true ->
  exists st,
    retime srt_lines ranges = Ok st
    /\ adjust_subtitle srt_lines ranges = Ok (render 1 (log st))
    /\ idx st = (1 + Z.of_nat (List.length (log st)))%Z
    /\ StronglySorted em_before (log st).
Proof.
  intros Hok. pose proof (retime_spec ranges srt_lines Hok) as Hr.
  cbv zeta in Hr. eexists. split; [exact Hr|]. split.
  { now rewrite (adjust_subtitle_retime _ _ _ Hr). }
  cbn [log idx]. split; [reflexivity|].
  apply all_hits_sorted, cues_from_lines.
Qed.

Lemma output_follows_ranges_then_file_order_witness :
  exists st,
    retime ["1"; "00:00:31,000 --> 00:00:32,000"; "hello"; ""]%string
           [(10, 20); (30, 40)] = Ok st
    /\ StronglySorted em_before (log st).
Proof.
  destruct (output_follows_ranges_then_file_order
              [(10, 20); (30, 40)]
              ["1"; "00:00:31,000 --> 00:00:32,000"; "hello"; ""]%string eq_refl)
    as (st & Hr & _ & _ & Hs).
  exists st. split; [exact Hr | exact Hs].
Defined.

(** ** The formatter read back *)

(** X17.  A time of a whole number of milliseconds below 100 hours is
    written in the form [HH:MM:SS,mmm], and the pattern of the re-timer
    reads that text back as one timestamp of the same time. *)
Theorem format_then_parse (n : Z) :
  (0 <= n < 360000000)%Z ->
  exists g,
    findall (sec_to_srt_time (inject_Z n / 1000)) = [g]
    /\ srt_time_to_sec g == inject_Z n / 1000
    /\ srt_form (sec_to_srt_time (inject_Z n / 1000)).
Proof.
  intros Hn.
  set (MS := (n mod 1000)%Z). set (T := (n / 1000)%Z).
  set (S := (T mod 60)%Z). set (U := (T / 60)%Z).
  set (M := (U mod 60)%Z). set (H := (U / 60)%Z).
  pose proof (Z.div_mod n 1000 ltac:(lia)) as D1.
  pose proof (Z.mod_pos_bound n 1000 ltac:(lia)) as B1.
  pose proof (Z.div_mod T 60 ltac:(lia)) as D2.
  pose proof (Z.mod_pos_bound T 60 ltac:(lia)) as B2.
  pose proof (Z.div_mod U 60 ltac:(lia)) as D3.
  pose proof (Z.mod_pos_bound U 60 ltac:(lia)) as B3.
  fold MS T in D1, B1. fold S U in D2, B2. fold M H in D3, B3.
  assert (HH : (0 <= H < 100)%Z) by lia.
  assert (E : inject_Z n / 1000
              == inject_Z (H * 3600 + M * 60 + S) + inject_Z MS / 1000).
  { replace n with (1000 * (H * 3600 + M * 60 + S) + MS)%Z by lia.
    rewrite inject_Z_plus, inject_Z_mult. change (inject_Z 1000) with 1000.
    field. }
  rewrite (sec_to_srt_time_fields _ H M S MS ltac:(lia) B3 B2 B1 E).
  destruct (zfill_spec 2 H ltac:(lia)) as (A1 & I1 & _).
  destruct (zfill_spec 2 M ltac:(lia)) as (A2 & I2 & _).
  destruct (zfill_spec 2 S ltac:(lia)) as (A3 & I3 & _).
  destruct (zfill_spec 3 MS ltac:(lia)) as (A4 & I4 & _).
  destruct (field_length 2 H ltac:(lia)) as (L1 & _).
  destruct (field_length 2 M ltac:(lia)) as (L2 & _).
  destruct (field_length 2 S ltac:(lia)) as (L3 & _).
  destruct (field_length 3 MS ltac:(lia)) as (_ & L4 & _).
  specialize (L1 ltac:(lia) eq_refl). specialize (L2 ltac:(lia) eq_refl).
  specialize (L3 ltac:(lia) eq_refl). specialize (L4 ltac:(lia) eq_refl).
  exists (Str.zfill 2 H, Str.zfill 2 M, Str.zfill 2 S, Str.zfill 3 MS).
  split; [|split].
  - unfold findall.
    rewrite !string_length_app, L1, L2, L3, L4.
    cbn [String.length Nat.add findall_fuel].
    rewrite <- (append_empty (Str.zfill 3 MS)) at 1.
    rewrite (pattern_at_app _ _ _ _ "" L1 L2 L3 L4 A1 A2 A3 A4).
    reflexivity.
  - unfold srt_time_to_sec. rewrite I1, I2, I3, I4. symmetry. exact E.
  - exists (Str.zfill 2 H), (Str.zfill 2 M), (Str.zfill 2 S), (Str.zfill 3 MS).
    repeat split; assumption.
Qed.

Lemma format_then_parse_witness :
  exists g,
    findall (sec_to_srt_time (inject_Z 3723456 / 1000)) = [g]
    /\ srt_time_to_sec g == inject_Z 3723456 / 1000
    /\ srt_form (sec_to_srt_time (inject_Z 3723456 / 1000)).
Proof. apply (format_then_parse 3723456). split; [discriminate | reflexivity]. Defined.

Lemma round_1000 (x : Q) :
  0 <= x -> x < 1000 ->
  (Num.round x = 1000%Z <-> 9995 # 10 <= x).
Proof.
  intros H0 H1.
  destruct (floor_range x 0 1000 H0 H1) as [F0 F1].
  destruct (floor_frac x) as [R0 R1].
  unfold Num.round. set (f := Qfloor x) in *. split.
  - destruct (Num.lt (x - inject_Z f) (1 # 2)) eqn:L; [lia|].
    apply lt_false in L. intros E.
    assert (Hf : f = 999%Z).
    { destruct (Num.gt (x - inject_Z f) (1 # 2)); [lia|].
      destruct (Z.even f); lia. }
    rewrite Hf in L. change (inject_Z 999) with 999 in L. lra.
  - intros Hx.
    assert (Hf : f = 999%Z).
    { apply floor_unique; [change (inject_Z 999) with 999; lra|].
      change (inject_Z 999) with 999. lra. }
    rewrite Hf. change (inject_Z 999) with 999.
    assert (L : Num.lt (x - 999) (1 # 2) = false) by (apply lt_false; lra).
    rewrite L. destruct (Num.gt (x - 999) (1 # 2)); reflexivity.
Qed.

(** ** When the run succeeds *)

(** * Properties of the functions on binary64 floats *)

Module F64Facts.
Import F64.

#[local] Open Scope string_scope.
#[local] Open Scope Z_scope.
#[local] Open Scope list_scope.

Ltac inv_bind H :=
  match type of H with
  | and_then ?r _ = Ret _ =>
      let E := fresh "E" in
      destruct r eqn:E; cbn [and_then] in H; [|discriminate H]
  end.

Lemma render_app_f (es1 es2 : list emission) :
  forall n l1 l2,
  render n es1 = Ret l1 ->
  render (n + Z.of_nat (List.length es1)) es2 = Ret l2 ->
  render n (es1 ++ es2) = Ret (l1 ++ l2).
Proof.
  induction es1 as [|e es1 IH]; intros n l1 l2 H1 H2.
  - cbn in H1. injection H1 as <-. cbn [List.length Z.of_nat] in H2.
    now rewrite Z.add_0_r in H2.
  - cbn [render] in H1. inv_bind H1. inv_bind H1. inv_bind H1.
    injection H1 as <-. cbn [app render]. rewrite E, E0. cbn [and_then].
    rewrite (IH (n + 1) a1 l2 E1); [cbn [and_then]; now rewrite app_assoc|].
    rewrite <- H2. f_equal.
    change (List.length (e :: es1)) with (S (List.length es1)).
    rewrite Nat2Z.inj_succ. unfold Z.succ.
    now rewrite (Z.add_comm (Z.of_nat _) 1), Z.add_assoc.
Qed.

Lemma hits_cons_f (seg : nat) (r : TimeRange) (off : float) (c : cue) (cs : list cue) :
  hits seg r off (c :: cs)
  = if holds (cue_start c) (cue_end c) r
    then shifted seg (fst r) off c :: hits seg r off cs
    else hits seg r off cs.
Proof. unfold hits. cbn [filter]. now destruct (holds _ _ r). Qed.

Lemma scan_lines_ok (seg : nat) (start end_ off : float) (lines : list string) :
  forall i st st',
  scan_lines seg start end_ off i lines st = Ret st' ->
  let es := hits seg (start, end_) off (cues_from i lines) in
  log st' = log st ++ es
  /\ idx st' = idx st + Z.of_nat (List.length es)
  /\ exists blocks, render (idx st) es = Ret blocks
                    /\ new_srt st' = new_srt st ++ blocks.
Proof.
  induction lines as [|line following IH]; intros i st st' H; cbv zeta.
  - cbn in H. injection H as <-. cbn. rewrite !app_nil_r, Z.add_0_r.
    repeat split. exists []. now rewrite app_nil_r.
  - cbn [scan_lines] in H. inv_bind H. apply IH in H. cbv zeta in H.
    destruct H as (Hl & Hi & blocks & Hr & Hn).
    unfold scan_line in E. inv_bind E. cbn [cues_from]. rewrite E0.
    destruct a0 as [[s e]|]; [|injection E as <-; eauto].
    rewrite hits_cons_f. cbn [cue_start cue_end].
    change (holds s e (start, end_)) with (ge s start && le e end_).
    destruct (ge s start && le e end_); [|injection E as <-; eauto].
    inv_bind E. inv_bind E. injection E as <-.
    cbn [log idx new_srt] in *. rewrite Hl, Hi, Hn, <- !app_assoc.
    cbn [app]. split; [reflexivity|]. split.
    { rewrite length_cons, Nat2Z.inj_succ. unfold Z.succ.
      now rewrite (Z.add_comm (Z.of_nat _) 1), Z.add_assoc. }
    eexists. split; [|reflexivity].
    cbn [render shifted em_start em_end em_text cue_start cue_end cue_text fst snd].
    rewrite E1, E2. cbn [and_then]. rewrite Hr. reflexivity.
Qed.

Lemma scan_ranges_ok (ranges : list TimeRange) (srt_lines : list string)
    (todo : list TimeRange) :
  forall seg st st',
  scan_ranges ranges srt_lines seg todo st = Ret st' ->
  let es := all_hits ranges seg todo (cues_from 0 srt_lines) in
  log st' = log st ++ es
  /\ idx st' = idx st + Z.of_nat (List.length es)
  /\ exists blocks, render (idx st) es = Ret blocks
                    /\ new_srt st' = new_srt st ++ blocks.
Proof.
  induction todo as [|[start end_] rest IH]; intros seg st st' H; cbv zeta.
  - cbn in H. injection H as <-. cbn. rewrite !app_nil_r, Z.add_0_r.
    repeat split. exists []. now rewrite app_nil_r.
  - cbn [scan_ranges] in H. inv_bind H.
    apply scan_lines_ok in E. cbv zeta in E.
    destruct E as (Hl1 & Hi1 & b1 & Hr1 & Hn1).
    apply IH in H. cbv zeta in H. destruct H as (Hl2 & Hi2 & b2 & Hr2 & Hn2).
    cbn [all_hits]. rewrite Hl2, Hl1, Hi2, Hi1, Hn2, Hn1, <- !app_assoc.
    rewrite length_app, Nat2Z.inj_add, Z.add_assoc.
    repeat split. exists (b1 ++ b2). split; [|reflexivity].
    apply render_app_f; [exact Hr1|]. now rewrite <- Hi1.
Qed.

(** What a run of the two loops that raises nothing leaves behind. *)
Lemma retime_ok (srt_lines : list string) (ranges : list TimeRange)
    (st : retimer_state) :
  retime srt_lines ranges = Ret st ->
  log st = all_hits ranges 0 ranges (cues_from 0 srt_lines)
  /\ idx st = 1 + Z.of_nat (List.length (log st))
  /\ render 1 (log st) = Ret (new_srt st).
Proof.
  intros H. apply scan_ranges_ok in H. cbv zeta in H. cbn [log idx new_srt app] in H.
  destruct H as (Hl & Hi & blocks & Hr & Hn). rewrite Hl, Hi, Hn.
  repeat split. exact Hr.
Qed.

Lemma times_emitted_app_f (i : nat) (es1 es2 : list emission) :
  times_emitted i (es1 ++ es2) = (times_emitted i es1 + times_emitted i es2)%nat.
Proof. unfold times_emitted. now rewrite filter_app, length_app. Qed.

Lemma times_emitted_cons_f (i : nat) (em : emission) (es : list emission) :
  times_emitted i (em :: es)
  = ((if (em_line em =? i)%nat then 1 else 0) + times_emitted i es)%nat.
Proof. unfold times_emitted. cbn [filter]. now destruct (em_line em =? i)%nat. Qed.

Lemma times_emitted_hits_f (seg : nat) (r : TimeRange) (off : float)
    (lines : list string) :
  forall j i : nat,
  times_emitted i (hits seg r off (cues_from j lines))
  = if (j <=? i)%nat then
      match cue_at lines (i - j) with
      | Some (s, e) => if holds s e r then 1%nat else 0%nat
      | None => 0%nat
      end
    else 0%nat.
Proof.
  induction lines as [|line following IH]; intros j i.
  - unfold cue_at. simpl. destruct (j <=? i)%nat; [|reflexivity].
    now destruct (i - j)%nat.
  - cbn [cues_from].
    assert (Hrest : times_emitted i (hits seg r off (cues_from (S j) following))
                    = if (j <? i)%nat then
                        match cue_at (line :: following) (i - j) with
                        | Some (s, e) => if holds s e r then 1%nat else 0%nat
                        | None => 0%nat
                        end
                      else 0%nat).
    { rewrite IH. unfold Nat.ltb.
      destruct (S j <=? i)%nat eqn:E; [|reflexivity].
      apply Nat.leb_le in E.
      replace (i - j)%nat with (S (i - S j)) by lia. reflexivity. }
    destruct (Nat.eq_dec i j) as [->|Hne].
    + rewrite Nat.ltb_irrefl in Hrest. rewrite Nat.leb_refl, Nat.sub_diag.
      unfold cue_at. cbn [nth_error].
      destruct (cue_times line) as [[[s e]|]|]; try exact Hrest.
      rewrite hits_cons_f. cbn [cue_start cue_end].
      destruct (holds s e r); [|exact Hrest].
      rewrite times_emitted_cons_f, Hrest. cbn [shifted em_line cue_line].
      now rewrite Nat.eqb_refl.
    + assert (Hji : (j =? i)%nat = false) by (apply Nat.eqb_neq; lia).
      assert (Hskip :
        times_emitted i
          (hits seg r off
             match cue_times line with
             | Ret (Some (s, e)) =>
                 mkCue j s e (text_lines following) :: cues_from (S j) following
             | _ => cues_from (S j) following
             end)
        = times_emitted i (hits seg r off (cues_from (S j) following))).
      { destruct (cue_times line) as [[[s e]|]|]; try reflexivity.
        rewrite hits_cons_f.
        destruct (holds _ _ r); [|reflexivity].
        rewrite times_emitted_cons_f. cbn [shifted em_line cue_line].
        now rewrite Hji. }
      rewrite Hskip, Hrest. unfold Nat.ltb.
      destruct (j <=? i)%nat eqn:E1, (S j <=? i)%nat eqn:E2; try reflexivity.
      * apply Nat.leb_le in E1. apply Nat.leb_gt in E2. lia.
      * apply Nat.leb_gt in E1. apply Nat.leb_le in E2. lia.
Qed.

Lemma times_emitted_all_hits_f (ranges : list TimeRange) (srt_lines : list string)
    (i : nat) (s e : float) :
  cue_at srt_lines i = Some (s, e) ->
  forall (todo : list TimeRange) (seg : nat),
  times_emitted i (all_hits ranges seg todo (cues_from 0 srt_lines))
  = List.length (filter (holds s e) todo).
Proof.
  intros Hc. induction todo as [|r rest IH]; intros seg; [reflexivity|].
  cbn [all_hits filter]. rewrite times_emitted_app_f, IH.
  rewrite times_emitted_hits_f. cbn [Nat.leb]. rewrite Nat.sub_0_r, Hc.
  destruct (holds s e r); reflexivity.
Qed.

Lemma in_cues_from_f (c : cue) (lines : list string) :
  forall j : nat,
  In c (cues_from j lines) ->
  (j <= cue_line c)%nat
  /\ cue_at lines (cue_line c - j) = Some (cue_start c, cue_end c)
  /\ cue_text c = text_lines (skipn (S (cue_line c - j)) lines).
Proof.
  induction lines as [|line following IH]; intros j Hin; [destruct Hin|].
  cbn [cues_from] in Hin.
  assert (Hlater : In c (cues_from (S j) following) ->
    (j <= cue_line c)%nat
    /\ cue_at (line :: following) (cue_line c - j) = Some (cue_start c, cue_end c)
    /\ cue_text c = text_lines (skipn (S (cue_line c - j)) (line :: following))).
  { intros H. destruct (IH _ H) as (Hle & Hc & Ht).
    replace (cue_line c - j)%nat with (S (cue_line c - S j)) by lia.
    split; [lia|]. split; assumption. }
  destruct (cue_times line) as [[[s e]|]|] eqn:E; try (now apply Hlater).
  destruct Hin as [<-|Hin]; [|now apply Hlater].
  cbn [cue_line cue_start cue_end cue_text]. rewrite Nat.sub_diag.
  unfold cue_at. cbn [nth_error skipn]. rewrite E. auto.
Qed.

Lemma in_all_hits_f (ranges : list TimeRange) (cs : list cue) (em : emission) :
  forall (todo : list TimeRange) (seg : nat),
  In em (all_hits ranges seg todo cs) <->
  exists k r c,
    nth_error todo k = Some r /\ In c cs
    /\ holds (cue_start c) (cue_end c) r = true
    /\ em = shifted (seg + k) (fst r) (seg_offset ranges (seg + k)) c.
Proof.
  induction todo as [|r rest IH]; intros seg.
  - split; [intros [] | intros (k & r & c & H & _); now destruct k].
  - cbn [all_hits]. rewrite in_app_iff, IH. split.
    + intros [Hin|(k & r' & c & Hk & Hc & Hi & ->)].
      * unfold hits in Hin. apply in_map_iff in Hin as (c & <- & Hc).
        apply filter_In in Hc as [Hc Hi].
        exists 0%nat, r, c. rewrite Nat.add_0_r. auto.
      * exists (S k), r', c. rewrite Nat.add_succ_r. auto.
    + intros ([|k] & r' & c & Hk & Hc & Hi & ->).
      * left. injection Hk as <-. rewrite Nat.add_0_r. unfold hits.
        apply in_map, filter_In. auto.
      * right. exists k, r', c. rewrite Nat.add_succ_r. auto.
Qed.

Lemma in_cues_from_at (lines : list string) (i : nat) (s e : float) :
  cue_at lines i = Some (s, e) ->
  forall j, In (mkCue (j + i) s e (text_lines (skipn (S i) lines)))
               (cues_from j lines).
Proof.
  revert i. induction lines as [|line following IH]; intros i H j.
  - unfold cue_at in H. now destruct i.
  - destruct i as [|i].
    + unfold cue_at in H. cbn [nth_error] in H. cbn [cues_from].
      destruct (cue_times line) as [[t|]|]; try discriminate.
      injection H as ->. rewrite Nat.add_0_r. now left.
    + assert (H' : cue_at following i = Some (s, e)) by exact H.
      specialize (IH i H' (S j)). rewrite Nat.add_succ_r.
      cbn [cues_from skipn] in *.
      destruct (cue_times line) as [[[s' e']|]|]; [right|..]; exact IH.
Qed.

Lemma digit_no_dash (c : ascii) : Str.is_digit c = true -> no_dash c = true.
Proof.
  intros H. unfold no_dash. destruct (Ascii.eqb_spec "-" c) as [<-|_]; [|reflexivity].
  vm_compute in H. discriminate H.
Qed.

Lemma all_chars_app (p : ascii -> bool) (s1 s2 : string) :
  all_chars p (s1 ++ s2) = all_chars p s1 && all_chars p s2.
Proof.
  induction s1 as [|c s1 IH]; simpl; [reflexivity|].
  now rewrite IH, andb_assoc.
Qed.

Lemma digits_no_dash (s : string) :
  all_digits s = true -> all_chars no_dash s = true.
Proof.
  induction s as [|c s IH]; [reflexivity|]. cbn [all_digits all_chars].
  intros H. apply andb_true_iff in H as [Hc Hs].
  now rewrite (digit_no_dash c Hc), (IH Hs).
Qed.

Lemma cut_arrow_skip (a rest : string) :
  all_chars no_dash a = true ->
  Str.cut "-->" (a ++ rest)
  = match Str.cut "-->" rest with
    | Some (x, y) => Some ((a ++ x)%string, y)
    | None => None
    end.
Proof.
  induction a as [|c a IH]; intros H.
  - cbn [append]. now destruct (Str.cut "-->" rest) as [[x y]|].
  - cbn [all_chars] in H. apply andb_true_iff in H as [Hc Ha].
    unfold no_dash in Hc. apply negb_true_iff in Hc.
    cbn [append Str.cut Str.strip_prefix]. rewrite Hc, (IH Ha).
    now destruct (Str.cut "-->" rest) as [[x y]|].
Qed.

Lemma timestamp_no_dash (t : string) (g : string * string * string * string) :
  timestamp t g -> all_chars no_dash t = true /\ String.length t = 12%nat.
Proof.
  destruct g as [[[hh mm] ss] mmm].
  intros (-> & L1 & L2 & L3 & L4 & A1 & A2 & A3 & A4). split.
  - rewrite !all_chars_app, (digits_no_dash hh A1), (digits_no_dash mm A2),
      (digits_no_dash ss A3), (digits_no_dash mmm A4). reflexivity.
  - rewrite !string_length_app, L1, L2, L3, L4. reflexivity.
Qed.

Lemma str_app_assoc (a b c : string) : ((a ++ b) ++ c = a ++ (b ++ c))%string.
Proof. induction a as [|x a IH]; [reflexivity | simpl; now rewrite IH]. Qed.

Lemma pattern_at_space (s : string) : pattern_at (String " " s) = None.
Proof.
  unfold pattern_at, digits_n. cbn [String.substring list_ascii_of_string forallb].
  change (Str.is_digit " ") with false. cbn [andb]. now rewrite andb_false_r.
Qed.

Lemma findall_timestamp (t : string) (g : string * string * string * string)
    (rest : string) :
  timestamp t g -> exists more, findall (t ++ rest) = g :: more.
Proof.
  intros H. destruct (timestamp_no_dash t g H) as [_ L].
  destruct g as [[[hh mm] ss] mmm].
  destruct H as (-> & L1 & L2 & L3 & L4 & A1 & A2 & A3 & A4).
  unfold findall. rewrite string_length_app, L. cbn [Nat.add findall_fuel].
  rewrite !str_app_assoc.
  rewrite (pattern_at_app hh mm ss mmm rest L1 L2 L3 L4 A1 A2 A3 A4).
  eexists. reflexivity.
Qed.

(** A time line [HH:MM:SS,mmm --> HH:MM:SS,mmm], with or without text
    after it (the end of the line, as a rule), is read as the two times
    its groups denote. *)
Lemma cue_times_standard (t1 t2 rest : string)
    (g1 g2 : string * string * string * string) :
  timestamp t1 g1 -> timestamp t2 g2 -> Str.contains "-->" rest = false ->
  cue_times (t1 ++ " --> " ++ t2 ++ rest)
  = Ret (Some (srt_time_to_sec g1, srt_time_to_sec g2)).
Proof.
  intros H1 H2 Hrest.
  destruct (timestamp_no_dash t1 g1 H1) as [N1 L1].
  destruct (timestamp_no_dash t2 g2 H2) as [N2 L2].
  assert (Hr : Str.cut "-->" rest = None).
  { unfold Str.contains in Hrest. now destruct (Str.cut "-->" rest). }
  assert (Hcut2 : Str.cut "-->" (" " ++ t2 ++ rest) = None).
  { change (" " ++ t2 ++ rest)%string with (" " ++ (t2 ++ rest))%string.
    rewrite <- (str_app_assoc " " t2 rest). rewrite cut_arrow_skip.
    - now rewrite Hr.
    - cbn [append all_chars]. now rewrite N2. }
  assert (Hcut : Str.cut "-->" (t1 ++ " --> " ++ t2 ++ rest)
                 = Some ((t1 ++ " ")%string, (" " ++ t2 ++ rest)%string)).
  { rewrite (cut_arrow_skip t1 _ N1). reflexivity. }
  unfold cue_times, Str.contains, Str.split. rewrite Hcut.
  rewrite string_length_app, L1. cbn [Nat.add Str.split_fuel]. rewrite Hcut.
  cbn [String.length append Str.split_fuel].
  rewrite string_length_app, L2. cbn [Nat.add Str.split_fuel].
  change (String " " (t2 ++ rest)) with (" " ++ t2 ++ rest)%string. rewrite Hcut2.
  destruct (findall_timestamp t1 g1 " " H1) as [m1 ->].
  unfold findall at 1. cbn [append String.length findall_fuel].
  rewrite pattern_at_space.
  destruct (findall_timestamp t2 g2 rest H2) as [m2 F2].
  unfold findall in F2. rewrite F2. reflexivity.
Qed.

Lemma compare_rank (x y : float) :
  match SFcompare x y with
  | None => rank x = None \/ rank y = None
  | Some c =>
      exists a b, rank x = Some a /\ rank y = Some b
        /\ match c with
           | Lt => rank_lt a b
           | Eq => a = b
           | Gt => rank_lt b a
           end
  end.
Proof.
  destruct x as [sx|sx| |sx mx ex], y as [sy|sy| |sy my ey];
    try destruct sx; try destruct sy; cbn [SFcompare rank];
    try (now left); try (now right);
    try (eexists; eexists; split; [reflexivity|]; split; [reflexivity|];
         cbn [rank_lt]; first [reflexivity | lia]).
  - eexists; eexists; split; [reflexivity|]; split; [reflexivity|].
    change (Pos.compare_cont Eq mx my) with (Pos.compare mx my).
    destruct (Z.compare_spec ex ey) as [->|H|H]; cbn [rank_lt]; try lia.
    destruct (Pos.compare_spec mx my) as [->|H|H]; cbn [CompOpp rank_lt];
      [reflexivity | lia | lia].
  - eexists; eexists; split; [reflexivity|]; split; [reflexivity|].
    change (Pos.compare_cont Eq mx my) with (Pos.compare mx my).
    destruct (Z.compare_spec ex ey) as [->|H|H]; cbn [rank_lt]; try lia.
    destruct (Pos.compare_spec mx my) as [->|H|H]; cbn [rank_lt];
      [reflexivity | lia | lia].
Qed.

Lemma lt_rank (x y : float) :
  lt x y = true <->
  exists a b, rank x = Some a /\ rank y = Some b /\ rank_lt a b.
Proof.
  unfold lt, SFltb. pose proof (compare_rank x y) as H.
  destruct (SFcompare x y) as [[| |]|].
  - destruct H as (a & b & Ha & Hb & Heq). subst b. split; [discriminate|].
    intros (a' & b' & Ha' & Hb' & Hl). rewrite Ha in Ha'. rewrite Hb in Hb'.
    injection Ha' as <-. injection Hb' as <-.
    destruct a as [[a1 a2] a3]. cbn [rank_lt] in Hl. lia.
  - destruct H as (a & b & Ha & Hb & Hl). split; [|reflexivity].
    intros _. now exists a, b.
  - destruct H as (a & b & Ha & Hb & Hg). split; [discriminate|].
    intros (a' & b' & Ha' & Hb' & Hl). rewrite Ha in Ha'. rewrite Hb in Hb'.
    injection Ha' as <-. injection Hb' as <-.
    destruct a as [[a1 a2] a3], b as [[b1 b2] b3]. cbn [rank_lt] in Hl, Hg. lia.
  - split; [discriminate|].
    intros (a & b & Ha & Hb & _). destruct H as [H|H]; congruence.
Qed.

Lemma le_rank (x y : float) :
  le x y = true <->
  exists a b, rank x = Some a /\ rank y = Some b /\ (rank_lt a b \/ a = b).
Proof.
  unfold le, SFleb. pose proof (compare_rank x y) as H.
  destruct (SFcompare x y) as [[| |]|].
  - destruct H as (a & b & Ha & Hb & Heq). subst b. split; [|reflexivity].
    intros _. exists a, a. auto.
  - destruct H as (a & b & Ha & Hb & Hl). split; [|reflexivity].
    intros _. exists a, b. auto.
  - destruct H as (a & b & Ha & Hb & Hg). split; [discriminate|].
    intros (a' & b' & Ha' & Hb' & Hl). rewrite Ha in Ha'. rewrite Hb in Hb'.
    injection Ha' as <-. injection Hb' as <-.
    destruct a as [[a1 a2] a3], b as [[b1 b2] b3]. cbn [rank_lt] in Hl, Hg.
    destruct Hl as [Hl|Hl]; [lia|]. injection Hl as -> -> ->. lia.
  - split; [discriminate|].
    intros (a & b & Ha & Hb & _). destruct H as [H|H]; congruence.
Qed.

Ltac rank_facts :=
  repeat match goal with
  | H : lt _ _ = true |- _ => apply lt_rank in H; destruct H as (? & ? & ? & ? & H)
  | H : le _ _ = true |- _ => apply le_rank in H; destruct H as (? & ? & ? & ? & H)
  end;
  repeat match goal with
  | H1 : rank ?x = Some ?a, H2 : rank ?x = Some ?b |- _ =>
      rewrite H1 in H2; injection H2 as <-
  end.

Ltac rank_triples :=
  repeat match goal with
  | a : (Z * Z * Z)%type |- _ => destruct a as [[? ?] ?]
  end;
  cbn [rank_lt] in *;
  repeat match goal with
  | H : _ \/ (_, _, _) = (_, _, _) |- _ => destruct H as [H|H]; [|injection H as ? ? ?]
  end.

Lemma le_trans (x y z : float) :
  le x y = true -> le y z = true -> le x z = true.
Proof.
  intros H1 H2. rank_facts. apply le_rank. do 2 eexists.
  split; [eassumption|]. split; [eassumption|].
  rank_triples; subst; first [right; reflexivity | left; lia].
Qed.

Lemma lt_le_weak (x y : float) : lt x y = true -> le x y = true.
Proof.
  intros H. rank_facts. apply le_rank. do 2 eexists.
  split; [eassumption|]. split; [eassumption|]. now left.
Qed.

Lemma lt_not_le (x y : float) : lt x y = true -> le y x = true -> False.
Proof. intros H1 H2. rank_facts. rank_triples; subst; lia. Qed.

Lemma lt_irrefl (x : float) : lt x x = false.
Proof.
  apply not_true_iff_false. intros H. rank_facts. rank_triples. lia.
Qed.

Lemma lt_trans (x y z : float) :
  lt x y = true -> lt y z = true -> lt x z = true.
Proof.
  intros H1 H2. rank_facts. apply lt_rank. do 2 eexists.
  split; [eassumption|]. split; [eassumption|]. rank_triples. lia.
Qed.

(** [min] of a non-empty list: one of its elements, and no element is
    less. *)
Lemma fold_min_least (rest : list float) :
  forall x seen,
  (forall y, In y seen -> lt y x = false) -> In x seen ->
  let m := fold_left (fun m y => if lt y m then y else m) rest x in
  In m (seen ++ rest) /\ forall y, In y (seen ++ rest) -> lt y m = false.
Proof.
  induction rest as [|a rest IH]; intros x seen Hs Hx; cbv zeta.
  - cbn [fold_left]. rewrite app_nil_r. auto.
  - cbn [fold_left].
    replace (seen ++ a :: rest) with ((seen ++ [a]) ++ rest)
      by now rewrite <- app_assoc.
    apply IH.
    + intros y Hy. apply in_app_iff in Hy as [Hy|[<-|[]]].
      * destruct (lt a x) eqn:E; [|now apply Hs].
        apply not_true_iff_false. intros Hya.
        pose proof (lt_trans _ _ _ Hya E) as H. rewrite (Hs y Hy) in H.
        discriminate H.
      * destruct (lt a x) eqn:E; [apply lt_irrefl | exact E].
    + apply in_app_iff. destruct (lt a x); [right; now left | now left].
Qed.

Lemma get_min_duration_least (r : TimeRange) (rest : list TimeRange) :
  exists m,
    get_min_duration (r :: rest) = Ret m
    /\ (exists r', In r' (r :: rest) /\ m = sub (snd r') (fst r'))
    /\ forall r', In r' (r :: rest) -> lt (sub (snd r') (fst r')) m = false.
Proof.
  unfold get_min_duration. cbn [map py_min]. eexists. split; [reflexivity|].
  pose proof (fold_min_least (map (fun r => sub (snd r) (fst r)) rest)
                (sub (snd r) (fst r)) [sub (snd r) (fst r)]) as H.
  cbv zeta in H. destruct H as [Hin Hle].
  - intros y [<-|[]]. apply lt_irrefl.
  - now left.
  - change ([sub (snd r) (fst r)] ++ map (fun r => sub (snd r) (fst r)) rest)
      with (map (fun r => sub (snd r) (fst r)) (r :: rest)) in Hin, Hle.
    split.
    + apply in_map_iff in Hin as (r' & E & Hr'). exists r'. auto.
    + intros r' Hr'. apply Hle.
      apply (in_map (fun r => sub (snd r) (fst r))). exact Hr'.
Qed.

Lemma assemble_calls_something (engine : engine_call -> bool) (args : Args)
    (r : TimeRange) (rest : list TimeRange) :
  calls (assemble engine args (r :: rest)) <> [].
Proof.
  unfold assemble. cbn [cut_from].
  destruct (engine (cut_segment (overlap args) 0 r)).
  - destruct (cut_from engine (overlap args) 1 rest) as [cs [e|]].
    + cbn [calls]. discriminate.
    + destruct (engine _); cbn [negb].
      * destruct (subtitle args) as [srt|]; [|cbn [calls app]; discriminate].
        destruct (adjust_subtitle srt (r :: rest)); [|cbn [calls app]; discriminate].
        destruct (engine _); cbn [calls app]; discriminate.
      * cbn [calls app]. discriminate.
  - cbn [calls]. discriminate.
Qed.

(** C4.  For a range file that is valid and not empty, [min_dur] is
    the least of the differences [end - start] of its ranges, each
    computed as a float: it is one of them and none is less.  Whatever
    the engine does, the run is ended by the fade check, with the
    message and exit status 1 and before any engine call, if and only
    if [overlap > min_dur]; otherwise [main] goes on to cut, and makes
    at least one engine call.  In particular a fade equal to [min_dur]
    is accepted. *)
Theorem fade_check_on_float_durations
    (engine : engine_call -> bool) (args : Args)
    (r : TimeRange) (rest : list TimeRange) :
  parse_time_ranges_file (time_ranges_file args) = Ret (r :: rest) ->
  exists m,
    get_min_duration (r :: rest) = Ret m
    /\ (exists r', In r' (r :: rest) /\ m = sub (snd r') (fst r'))
    /\ (forall r', In r' (r :: rest) -> lt (sub (snd r') (fst r')) m = false)
    /\ (main engine args = fade_too_long <-> gt (overlap args) m = true)
    /\ (gt (overlap args) m = false ->
        main engine args = assemble engine args (r :: rest)
        /\ calls (main engine args) <> [])
    /\ (overlap args = m -> main engine args = assemble engine args (r :: rest)).
Proof.
  intros Hp. destruct (get_min_duration_least r rest) as (m & Hm & Hin & Hle).
  exists m. split; [exact Hm|]. split; [exact Hin|]. split; [exact Hle|].
  assert (Hacc : gt (overlap args) m = false ->
                 main engine args = assemble engine args (r :: rest)).
  { intros Hg. unfold main. now rewrite Hp, Hm, Hg. }
  split; [|split].
  - split.
    + intros Hmain. destruct (gt (overlap args) m) eqn:Hg; [reflexivity|].
      rewrite (Hacc eq_refl) in Hmain.
      pose proof (assemble_calls_something engine args r rest) as Hc.
      rewrite Hmain in Hc. now elim Hc.
    + intros Hg. unfold main. now rewrite Hp, Hm, Hg.
  - intros Hg. split; [now apply Hacc|]. rewrite (Hacc Hg).
    apply assemble_calls_something.
  - intros Ho. apply Hacc. rewrite Ho. apply lt_irrefl.
Qed.

Lemma adjust_subtitle_of_retime (srt_lines : list string)
    (ranges : list TimeRange) (st : retimer_state) :
  retime srt_lines ranges = Ret st ->
  adjust_subtitle srt_lines ranges = Ret (new_srt st).
Proof. intros H. unfold adjust_subtitle. now rewrite H. Qed.

Lemma cue_at_standard (srt_lines : list string) (i : nat) (t1 t2 : string)
    (g1 g2 : string * string * string * string) (rest : string) :
  nth_error srt_lines i = Some (t1 ++ " --> " ++ t2 ++ rest)%string ->
  timestamp t1 g1 -> timestamp t2 g2 -> Str.contains "-->" rest = false ->
  cue_at srt_lines i = Some (srt_time_to_sec g1, srt_time_to_sec g2).
Proof.
  intros Hn H1 H2 Hrest. unfold cue_at.
  now rewrite Hn, (cue_times_standard t1 t2 rest g1 g2 H1 H2 Hrest).
Qed.

Lemma holds_iff (s e : float) (r : TimeRange) :
  holds s e r = true <-> ge s (fst r) = true /\ le e (snd r) = true.
Proof. unfold holds. apply andb_true_iff. Qed.

(** Where an emission comes from. *)
Lemma emission_origin (ranges : list TimeRange) (srt_lines : list string)
    (em : emission) :
  In em (all_hits ranges 0 ranges (cues_from 0 srt_lines)) ->
  exists s e start end_,
    cue_at srt_lines (em_line em) = Some (s, e)
    /\ nth_error ranges (em_seg em) = Some (start, end_)
    /\ ge s start = true /\ le e end_ = true
    /\ em_start em = add (sub s start) (seg_offset ranges (em_seg em))
    /\ em_end em = add (sub e start) (seg_offset ranges (em_seg em))
    /\ em_text em = text_lines (skipn (S (em_line em)) srt_lines).
Proof.
  intros Hin. apply in_all_hits_f in Hin as (k & [start end_] & c & Hk & Hc & Hh & ->).
  apply in_cues_from_f in Hc as (_ & Hc & Ht). rewrite Nat.sub_0_r in Hc, Ht.
  apply holds_iff in Hh as [H1 H2].
  exists (cue_start c), (cue_end c), start, end_.
  cbn [shifted em_line em_seg em_start em_end em_text Nat.add fst snd] in *.
  repeat split; assumption.
Qed.

(** Every cue that a range holds is emitted for that range. *)
Lemma emission_intro (ranges : list TimeRange) (srt_lines : list string)
    (i k : nat) (s e start end_ : float) :
  cue_at srt_lines i = Some (s, e) ->
  nth_error ranges k = Some (start, end_) ->
  ge s start = true -> le e end_ = true ->
  In (mkEmission k i (add (sub s start) (seg_offset ranges k))
                 (add (sub e start) (seg_offset ranges k))
                 (text_lines (skipn (S i) srt_lines)))
     (all_hits ranges 0 ranges (cues_from 0 srt_lines)).
Proof.
  intros Hc Hk H1 H2. apply in_all_hits_f.
  exists k, (start, end_), (mkCue i s e (text_lines (skipn (S i) srt_lines))).
  split; [exact Hk|]. split; [exact (in_cues_from_at srt_lines i s e Hc 0%nat)|].
  split; [apply holds_iff; auto | reflexivity].
Qed.

Lemma cue_times_returns (l : string) :
  splits_in_two l -> exists c, cue_times l = Ret c.
Proof.
  intros H. unfold cue_times. unfold splits_in_two in H.
  destruct (Str.contains "-->" l); [|eexists; reflexivity].
  destruct (H eq_refl) as (t1 & t2 & ->).
  destruct (findall t1), (findall t2); eexists; reflexivity.
Qed.

Lemma scan_lines_returns (seg : nat) (start end_ off : float) (lines : list string) :
  forall i st,
  (forall l, In l lines -> splits_in_two l) ->
  (forall c, In c (cues_from i lines) ->
     holds (cue_start c) (cue_end c) (start, end_) = true ->
     formats (add (sub (cue_start c) start) off)
     /\ formats (add (sub (cue_end c) start) off)) ->
  exists st', scan_lines seg start end_ off i lines st = Ret st'.
Proof.
  induction lines as [|l following IH]; intros i st Hl Hf; [eexists; reflexivity|].
  cbn [scan_lines]. unfold scan_line.
  destruct (cue_times_returns l (Hl l (or_introl eq_refl))) as [c Hc].
  cbn [cues_from] in Hf. rewrite Hc in *. cbn [and_then].
  assert (Hl' : forall l', In l' following -> splits_in_two l')
    by (intros l' H'; apply Hl; now right).
  destruct c as [[s e]|].
  - change (ge s start && le e end_) with (holds s e (start, end_)).
    destruct (holds s e (start, end_)) eqn:Hh.
    + destruct (Hf _ (or_introl eq_refl) Hh) as [[a Ha] [b Hb]].
      cbn [cue_start cue_end] in Ha, Hb. rewrite Ha, Hb. cbn [and_then].
      apply IH; [exact Hl'|]. intros c Hin. apply Hf. now right.
    + apply IH; [exact Hl'|]. intros c Hin. apply Hf. now right.
  - apply IH; [exact Hl'|exact Hf].
Qed.

Lemma scan_ranges_returns (ranges : list TimeRange) (srt_lines : list string)
    (todo : list TimeRange) :
  forall seg st,
  (forall l, In l srt_lines -> splits_in_two l) ->
  (forall k r c, nth_error todo k = Some r -> In c (cues_from 0 srt_lines) ->
     holds (cue_start c) (cue_end c) r = true ->
     formats (add (sub (cue_start c) (fst r)) (seg_offset ranges (seg + k)))
     /\ formats (add (sub (cue_end c) (fst r)) (seg_offset ranges (seg + k)))) ->
  exists st', scan_ranges ranges srt_lines seg todo st = Ret st'.
Proof.
  induction todo as [|[start end_] rest IH]; intros seg st Hl Hf; [eexists; reflexivity|].
  cbn [scan_ranges].
  destruct (scan_lines_returns seg start end_ (seg_offset ranges seg) srt_lines 0 st Hl)
    as [st1 H1].
  { intros c Hc Hh. pose proof (Hf 0%nat (start, end_) c eq_refl Hc Hh) as H.
    now rewrite Nat.add_0_r in H. }
  rewrite H1. cbn [and_then]. apply IH; [exact Hl|].
  intros k r c Hk Hc Hh. rewrite Nat.add_succ_l, <- Nat.add_succ_r.
  now apply (Hf (S k)).
Qed.

(** The re-timer returns when every line with an arrow splits in two
    at it and the formatter returns on both shifted times of every
    cue that a range holds. *)
Lemma retime_returns (srt_lines : list string) (ranges : list TimeRange) :
  (forall l, In l srt_lines -> splits_in_two l) ->
  shifted_times_format srt_lines ranges ->
  exists st, retime srt_lines ranges = Ret st.
Proof.
  intros Hl Hf. apply scan_ranges_returns; [exact Hl|].
  intros k [start end_] c Hk Hc Hh.
  apply in_cues_from_f in Hc as (_ & Hc & _). rewrite Nat.sub_0_r in Hc.
  apply holds_iff in Hh as [H1 H2]. cbn [Nat.add fst].
  exact (Hf _ k _ _ start end_ Hc Hk H1 H2).
Qed.

(** C2.  The re-timer returns when every line with an arrow has one
    arrow only and the formatter returns on the shifted times of the
    cues that a range holds; and when it returns, its output is one
    block per logged emission.  A time line of two timestamps
    [HH:MM:SS,mmm] around an arrow is a cue with the two times that
    their groups denote.  The cue at line [i], from [s] to [e], is
    emitted if and only if some range has [s >= start] and [e <= end],
    the comparisons being those of the floats the code computes;
    whatever is emitted for it carries both of its times, moved by the
    same amount, and its whole text, so a cue that crosses a boundary or
    lies outside every range is left out, not cut. *)
Theorem retimer_keeps_cues_a_range_holds
    (ranges : list TimeRange) (srt_lines : list string) :
  ((forall l, In l srt_lines -> splits_in_two l) ->
   shifted_times_format srt_lines ranges ->
   exists st, retime srt_lines ranges = Ret st)
  /\ forall st, retime srt_lines ranges = Ret st ->
  adjust_subtitle srt_lines ranges = Ret (new_srt st)
  /\ render 1 (log st) = Ret (new_srt st)
  /\ (forall i t1 t2 g1 g2 rest,
        nth_error srt_lines i = Some (t1 ++ " --> " ++ t2 ++ rest)%string ->
        timestamp t1 g1 -> timestamp t2 g2 -> Str.contains "-->" rest = false ->
        cue_at srt_lines i = Some (srt_time_to_sec g1, srt_time_to_sec g2))
  /\ forall i s e, cue_at srt_lines i = Some (s, e) ->
       ((exists em, In em (log st) /\ em_line em = i)
        <-> (exists k start end_,
               nth_error ranges k = Some (start, end_)
               /\ ge s start = true /\ le e end_ = true))
       /\ (forall em, In em (log st) -> em_line em = i ->
             exists start end_,
               nth_error ranges (em_seg em) = Some (start, end_)
               /\ ge s start = true /\ le e end_ = true
               /\ em_start em = add (sub s start) (seg_offset ranges (em_seg em))
               /\ em_end em = add (sub e start) (seg_offset ranges (em_seg em))
               /\ em_text em = text_lines (skipn (S i) srt_lines)).
Proof.
  split; [apply retime_returns|].
  intros st Hr. destruct (retime_ok _ _ _ Hr) as (Hl & _ & Hout).
  split; [now apply adjust_subtitle_of_retime|]. split; [exact Hout|].
  split; [apply cue_at_standard|].
  intros i s e Hc. rewrite Hl. split; [split|].
  - intros (em & Hin & <-).
    destruct (emission_origin _ _ _ Hin)
      as (s' & e' & start & end_ & Hc' & Hk & H1 & H2 & _).
    rewrite Hc in Hc'. injection Hc' as <- <-.
    now exists (em_seg em), start, end_.
  - intros (k & start & end_ & Hk & H1 & H2).
    eexists. split; [exact (emission_intro _ _ i k s e start end_ Hc Hk H1 H2)|].
    reflexivity.
  - intros em Hin <-.
    destruct (emission_origin _ _ _ Hin)
      as (s' & e' & start & end_ & Hc' & Hk & H1 & H2 & Hs & He & Ht).
    rewrite Hc in Hc'. injection Hc' as <- <-.
    now exists start, end_.
Qed.



(** ** Rounding keeps the sign; the ranges of a valid file *)

Lemma shr_1_nonneg (mrs : shr_record) :
  0 <= shr_m mrs -> 0 <= shr_m (shr_1 mrs).
Proof.
  destruct mrs as [m r s]. cbn [shr_m]. intros H.
  destruct m as [|[p|p|]|p]; cbn; lia.
Qed.

Lemma iter_shr_1_nonneg (p : positive) :
  forall mrs, 0 <= shr_m mrs -> 0 <= shr_m (iter_pos shr_1 p mrs).
Proof.
  induction p as [p IH|p IH|]; intros mrs H; cbn [iter_pos].
  - apply IH, IH, shr_1_nonneg, H.
  - apply IH, IH, H.
  - apply shr_1_nonneg, H.
Qed.

Lemma shr_fexp_nonneg (m e : Z) (l : location) :
  0 <= m -> 0 <= shr_m (fst (shr_fexp prec emax m e l)).
Proof.
  intros H. unfold shr_fexp, shr.
  assert (H0 : 0 <= shr_m (shr_record_of_loc m l)) by (destruct l as [|[| |]]; exact H).
  destruct (fexp prec emax (Zdigits2 m + e) - e); cbn [fst]; try exact H0.
  now apply iter_shr_1_nonneg.
Qed.

Lemma round_nearest_even_nonneg (m : Z) (l : location) :
  0 <= m -> 0 <= round_nearest_even m l.
Proof.
  intros H. destruct l as [|[| |]]; cbn [round_nearest_even]; try lia.
  destruct (Z.even m); lia.
Qed.

Lemma binary_round_aux_plus (mx ex : Z) (lx : location) :
  0 <= mx -> plus (binary_round_aux prec emax false mx ex lx) = true.
Proof.
  intros H. unfold binary_round_aux.
  pose proof (shr_fexp_nonneg mx ex lx H) as H1.
  destruct (shr_fexp prec emax mx ex lx) as [mrs' e']. cbn [fst] in H1.
  pose proof (shr_fexp_nonneg _ e' loc_Exact
                (round_nearest_even_nonneg _ (loc_of_shr_record mrs') H1)) as H2.
  destruct (shr_fexp prec emax _ e' loc_Exact) as [mrs'' e'']. cbn [fst] in H2.
  destruct (shr_m mrs'') as [|m|m]; [reflexivity| |lia].
  destruct (e'' <=? emax - prec); reflexivity.
Qed.

Lemma nearest_plus (n : Z) : 0 <= n -> plus (nearest n) = true.
Proof.
  intros H. unfold nearest, binary_normalize. destruct n as [|p|p]; [reflexivity| |lia].
  unfold binary_round. destruct (shl_align _ _ _) as [mz ez].
  now apply binary_round_aux_plus.
Qed.

Lemma nearest_ratio_plus (n d : Z) : plus (nearest_ratio n d) = true.
Proof.
  unfold nearest_ratio. destruct n as [|pn|pn]; try reflexivity.
  destruct d as [|pd|pd]; try reflexivity.
  unfold div, SFdiv. cbn [xorb].
  destruct (SFdiv_core_binary prec emax (Z.pos pn) 0 (Z.pos pd) 0) as [[mz ez] lz] eqn:E.
  apply binary_round_aux_plus.
  unfold SFdiv_core_binary in E.
  destruct (Z.div_eucl _ (Z.pos pd)) as [q r] eqn:Ed. injection E as <- _ _.
  match type of Ed with
  | Z.div_eucl ?a ?b = _ =>
      assert (Ha : 0 <= a);
      [|pose proof (Z.div_pos a b Ha ltac:(lia)) as Hq;
        unfold Z.div in Hq; rewrite Ed in Hq; exact Hq]
  end.
  destruct (0 - 0 - _) as [|s|s]; try lia.
  apply Z.shiftl_nonneg. lia.
Qed.

Lemma float_of_plus (s : string) : plus (float_of s) = true.
Proof. unfold float_of. destruct (Str.cut "." s) as [[i f]|]; apply nearest_ratio_plus. Qed.

Lemma add_plus (x y : float) :
  plus x = true -> plus y = true -> plus (add x y) = true.
Proof.
  intros Hx Hy.
  destruct x as [sx|sx| |sx mx ex], y as [sy|sy| |sy my ey];
    try destruct sx; try destruct sy; try discriminate; try reflexivity.
  unfold add, SFadd, binary_normalize. cbn [cond_Zopp].
  destruct (_ + _) as [|p|p] eqn:E; [reflexivity| |lia].
  unfold binary_round. destruct (shl_align p _ _) as [mz ez].
  now apply binary_round_aux_plus.
Qed.


Lemma parse_time_plus (t : string) (x : float) :
  parse_time t = Ret x -> plus x = true.
Proof.
  unfold parse_time, re_time.
  destruct (Str.span Str.is_digit t) as [h r1] eqn:E1.
  destruct (span_spec _ _ _ _ E1) as (_ & Hh & _). rewrite all_chars_digits in Hh.
  destruct (Str.truthy h); [|discriminate].
  destruct (Str.strip_prefix ":" r1) as [r2|]; [|discriminate].
  destruct (Str.span Str.is_digit r2) as [m r3] eqn:E2.
  destruct (span_spec _ _ _ _ E2) as (_ & Hm & _). rewrite all_chars_digits in Hm.
  destruct (Str.truthy m); [|discriminate].
  unfold int_of.
  destruct (4300 <? String.length h)%nat; [discriminate|]. cbn [and_then].
  destruct (4300 <? String.length m)%nat; [discriminate|]. cbn [and_then].
  pose proof (int_of_nonneg h Hh). pose proof (int_of_nonneg m Hm).
  pose proof (nearest_plus (Str.int_of h * 3600 + Str.int_of m * 60) ltac:(lia)) as Hw.
  assert (Hadd : forall w, plus w = true ->
                 plus (add w (float_of (groups_default "0" (seconds_group r3)))) = true)
    by (intros w Hp; apply add_plus; [exact Hp | apply float_of_plus]).
  unfold of_int.
  destruct (nearest (Str.int_of h * 3600 + Str.int_of m * 60)) as [s|s| |s mw ew] eqn:En;
    cbn [and_then]; try discriminate; intros Hret; injection Hret as Hret;
    rewrite <- Hret;
    match type of En with _ = ?w => exact (Hadd w Hw) end.
Qed.

Lemma plus_rank (x : float) : plus x = true -> exists a, rank x = Some a.
Proof.
  destruct x as [s|[|]| |[|] m e]; try discriminate; intros _; eexists; reflexivity.
Qed.

Lemma rank_lt_total (a b : Z * Z * Z) : rank_lt a b \/ a = b \/ rank_lt b a.
Proof.
  destruct a as [[a1 a2] a3], b as [[b1 b2] b3]. cbn [rank_lt].
  destruct (Z.lt_trichotomy a1 b1) as [H|[H|H]]; [lia| |lia].
  destruct (Z.lt_trichotomy a2 b2) as [H2|[H2|H2]]; [lia| |lia].
  destruct (Z.lt_trichotomy a3 b3) as [H3|[H3|H3]]; [lia| |lia].
  right. left. congruence.
Qed.

Lemma rank_lt_asym (a b : Z * Z * Z) : rank_lt a b -> rank_lt b a -> False.
Proof. destruct a as [[a1 a2] a3], b as [[b1 b2] b3]. cbn [rank_lt]. lia. Qed.

Lemma rank_lt_irrefl (a : Z * Z * Z) : rank_lt a a -> False.
Proof. destruct a as [[a1 a2] a3]. cbn [rank_lt]. lia. Qed.

(** Among floats that are not nan, [not (y <= x)] is [x < y] and
    [not (y < x)] is [x <= y]. *)
Lemma not_le_lt (x y : float) :
  plus x = true -> plus y = true -> le y x = false -> lt x y = true.
Proof.
  intros Hx Hy H. destruct (plus_rank x Hx) as [a Ha], (plus_rank y Hy) as [b Hb].
  apply lt_rank. exists a, b. split; [exact Ha|]. split; [exact Hb|].
  destruct (rank_lt_total a b) as [Hl|[He|Hg]]; [exact Hl| |].
  - assert (Hle : le y x = true)
      by (apply le_rank; exists b, a; split; [exact Hb|]; split; [exact Ha|]; right; congruence).
    congruence.
  - assert (Hle : le y x = true)
      by (apply le_rank; exists b, a; split; [exact Hb|]; split; [exact Ha|]; now left).
    congruence.
Qed.

Lemma not_lt_le (x y : float) :
  plus x = true -> plus y = true -> lt y x = false -> le x y = true.
Proof.
  intros Hx Hy H. destruct (plus_rank x Hx) as [a Ha], (plus_rank y Hy) as [b Hb].
  apply le_rank. exists a, b. split; [exact Ha|]. split; [exact Hb|].
  destruct (rank_lt_total a b) as [Hl|[He|Hg]]; [now left | now right |].
  assert (Hlt : lt y x = true)
    by (apply lt_rank; exists b, a; split; [exact Hb|]; split; [exact Ha|]; exact Hg).
  congruence.
Qed.

Lemma parse_range_line_proper (l : string) (r : TimeRange) :
  parse_range_line l = Ret r -> sound r /\ proper r.
Proof.
  unfold parse_range_line. destruct (re_range l) as [[g1 g2]|]; [|discriminate].
  destruct (parse_time g1) as [start|] eqn:E1; [|discriminate]. cbn [and_then].
  destruct (parse_time g2) as [end_|] eqn:E2; [|discriminate]. cbn [and_then].
  destruct (ge start end_) eqn:Hge; [discriminate|]. intros [= <-].
  pose proof (parse_time_plus _ _ E1) as P1. pose proof (parse_time_plus _ _ E2) as P2.
  split; [split; assumption|]. unfold proper. cbn [fst snd].
  now apply not_le_lt.
Qed.

Lemma parse_range_lines_proper (lines : list string) :
  forall ranges, parse_range_lines lines = Ret ranges ->
  Forall sound ranges /\ Forall proper ranges.
Proof.
  induction lines as [|l rest IH]; intros ranges H; cbn [parse_range_lines] in H.
  - injection H as <-. split; constructor.
  - destruct (parse_range_line l) as [r|] eqn:E; [|discriminate]. cbn [and_then] in H.
    destruct (parse_range_lines rest) as [rs|]; [|discriminate]. cbn [and_then] in H.
    injection H as <-. destruct (parse_range_line_proper _ _ E) as [Hs Hp].
    destruct (IH rs eq_refl) as [Hss Hps]. split; constructor; assumption.
Qed.

Lemma check_order_ordered (ranges : list TimeRange) :
  Forall sound ranges -> check_order ranges = Ret tt -> ordered ranges.
Proof.
  induction ranges as [|prev [|next rest] IH]; intros Hs H; try exact I.
  cbn [check_order] in H. cbn [ordered].
  inversion Hs as [|? ? [_ Hp] Hrest]; subst.
  inversion Hrest as [|? ? [Hn _] _]; subst.
  destruct (gt (snd prev) (fst next)) eqn:Hg; [discriminate|].
  split; [now apply not_lt_le | now apply IH].
Qed.

(** The ranges of a valid file: [start < end] in each, and each ends no
    later than the next starts, as floats. *)
Lemma validated_proper_ordered (file_lines : list string) (ranges : list TimeRange) :
  parse_time_ranges_file file_lines = Ret ranges ->
  Forall proper ranges /\ ordered ranges.
Proof.
  unfold parse_time_ranges_file.
  destruct (parse_range_lines (stripped_lines file_lines)) as [rs|] eqn:E; [|discriminate].
  cbn [and_then]. destruct (check_order rs) as [[]|] eqn:Ec; [|discriminate].
  cbn [and_then]. intros [= <-].
  destruct (parse_range_lines_proper _ _ E) as [Hs Hp].
  split; [exact Hp | now apply check_order_ordered].
Qed.

Lemma ordered_later_f (r : TimeRange) (rest : list TimeRange) :
  Forall proper rest -> ordered (r :: rest) ->
  forall r', In r' rest -> le (snd r) (fst r') = true.
Proof.
  revert r. induction rest as [|a rest IH]; intros r Hp Ho r' Hin; [destruct Hin|].
  cbn [ordered] in Ho. destruct Ho as [Hra Ho].
  inversion Hp as [|? ? Ha Hrest]; subst.
  destruct Hin as [<-|Hin]; [exact Hra|].
  eapply le_trans; [exact Hra|].
  eapply le_trans; [apply lt_le_weak, Ha|].
  now apply (IH a).
Qed.

Lemma ordered_tail_f (r : TimeRange) (rest : list TimeRange) :
  ordered (r :: rest) -> ordered rest.
Proof. destruct rest; [constructor|]. now intros [_ H]. Qed.

(** In a validated list at most one range holds a span of positive
    length. *)
Lemma holds_at_most_once_f (s e : float) (ranges : list TimeRange) :
  Forall proper ranges -> ordered ranges -> lt s e = true ->
  (List.length (filter (holds s e) ranges) <= 1)%nat.
Proof.
  intros Hp Ho Hse. induction ranges as [|r rest IH]; [simpl; lia|].
  inversion Hp as [|? ? Hr Hrest]; subst.
  specialize (IH Hrest (ordered_tail_f _ _ Ho)).
  cbn [filter]. destruct (holds s e r) eqn:Hh; [|exact IH].
  apply holds_iff in Hh as [_ Her].
  assert (Hnone : filter (holds s e) rest = []).
  { clear IH. assert (H : forall r', In r' rest -> holds s e r' = false).
    { intros r' Hin. apply not_true_iff_false. intros Hh'.
      apply holds_iff in Hh' as [Hs' _].
      pose proof (ordered_later_f r rest Hrest Ho r' Hin) as Hle.
      apply (lt_not_le s e Hse).
      eapply le_trans; [exact Her|]. eapply le_trans; [exact Hle | exact Hs']. }
    clear -H. induction rest as [|a rest IHr]; [reflexivity|].
    cbn [filter]. rewrite (H a (or_introl eq_refl)).
    apply IHr. intros r' Hin. apply H. now right. }
  rewrite Hnone. simpl. lia.
Qed.

Lemma le_refl_of_lt_l (x y : float) : lt x y = true -> le y y = true.
Proof.
  intros H. rank_facts. apply le_rank. do 2 eexists.
  split; [eassumption|]. split; [eassumption|]. now right.
Qed.

Lemma le_refl_of_lt_r (x y : float) : lt x y = true -> le x x = true.
Proof.
  intros H. rank_facts. apply le_rank. do 2 eexists.
  split; [eassumption|]. split; [eassumption|]. now right.
Qed.

(** C6, as amended.  The re-timer returns when every line with an
    arrow has one arrow only and the formatter returns on the shifted
    times of the cues that a range holds.  When it returns, the cue at
    line [i], from [s] to [e], is emitted once for every range that
    holds it, as the code compares the floats.  In a validated range
    list, one that the parser of the range file returns, a cue with
    [s < e] is therefore emitted at most once, and a cue of length zero
    whose time is the end of one range and the start of the next is
    emitted for both of them. *)
Theorem retimer_emits_once_per_range_that_holds
    (ranges : list TimeRange) (srt_lines : list string) (i : nat) (s e : float) :
  cue_at srt_lines i = Some (s, e) ->
  ((forall l, In l srt_lines -> splits_in_two l) ->
   shifted_times_format srt_lines ranges ->
   exists st, retime srt_lines ranges = Ret st)
  /\ forall st, retime srt_lines ranges = Ret st ->
  adjust_subtitle srt_lines ranges = Ret (new_srt st)
  /\ render 1 (log st) = Ret (new_srt st)
  /\ (forall j t1 t2 g1 g2 rest,
        nth_error srt_lines j = Some (t1 ++ " --> " ++ t2 ++ rest)%string ->
        timestamp t1 g1 -> timestamp t2 g2 -> Str.contains "-->" rest = false ->
        cue_at srt_lines j = Some (srt_time_to_sec g1, srt_time_to_sec g2))
  /\ times_emitted i (log st)
     = List.length (filter (fun r => ge s (fst r) && le e (snd r)) ranges)
  /\ (forall file_lines,
        parse_time_ranges_file file_lines = Ret ranges -> lt s e = true ->
        (times_emitted i (log st) <= 1)%nat)
  /\ (forall file_lines k r1 r2,
        parse_time_ranges_file file_lines = Ret ranges ->
        nth_error ranges k = Some r1 -> nth_error ranges (S k) = Some r2 ->
        snd r1 = s -> s = e -> e = fst r2 ->
        (2 <= times_emitted i (log st))%nat).
Proof.
  intros Hc. split; [apply retime_returns|].
  intros st Hr. destruct (retime_ok _ _ _ Hr) as (Hl & _ & Hout).
  split; [now apply adjust_subtitle_of_retime|]. split; [exact Hout|].
  split; [apply cue_at_standard|]. rewrite Hl.
  rewrite (times_emitted_all_hits_f ranges srt_lines i s e Hc).
  split; [reflexivity|]. split.
  { intros file_lines Hv. destruct (validated_proper_ordered _ _ Hv) as [Hp Ho].
    now apply holds_at_most_once_f. }
  intros file_lines k r1 r2 Hv H1 H2 E1 E2 E3.
  destruct (validated_proper_ordered _ _ Hv) as [Hp _].
  pose proof (proj1 (Forall_forall _ _) Hp r1 (nth_error_In _ _ H1)) as P1.
  pose proof (proj1 (Forall_forall _ _) Hp r2 (nth_error_In _ _ H2)) as P2.
  unfold proper in P1, P2.
  subst e. subst s.
  apply (filter_two _ _ k r1 r2 H1 H2); apply holds_iff; unfold ge.
  - split; [now apply lt_le_weak | exact (le_refl_of_lt_l _ _ P1)].
  - rewrite E3. split; [exact (le_refl_of_lt_r _ _ P2) | now apply lt_le_weak].
Qed.

Lemma fade_check_on_float_durations_witness :
  exists r,
    parse_time_ranges_file (time_ranges_file args_fade_02) = Ret [r]
    /\ lt (sub (snd r) (fst r)) (overlap args_fade_02) = true
    /\ main (fun _ => true) args_fade_02 = fade_too_long
    /\ main (fun _ => false) args_fade_02 = fade_too_long.
Proof.
  destruct (parse_time_ranges_file (time_ranges_file args_fade_02))
    as [ranges|] eqn:Ep; [|vm_compute in Ep; discriminate Ep].
  vm_compute in Ep. injection Ep as <-.
  eexists. split; [reflexivity|]. split; [vm_compute; reflexivity|].
  assert (Hp : parse_time_ranges_file (time_ranges_file args_fade_02)
               = Ret [(S754_finite false 7205759403792794 (-56),
                       S754_finite false 5404319552844595 (-54))])
    by (vm_compute; reflexivity).
  split.
  - destruct (fade_check_on_float_durations (fun _ => true) args_fade_02 _ [] Hp)
      as (m & Hm & _ & _ & Hiff & _).
    vm_compute in Hm. injection Hm as <-. apply Hiff. vm_compute. reflexivity.
  - destruct (fade_check_on_float_durations (fun _ => false) args_fade_02 _ [] Hp)
      as (m & Hm & _ & _ & Hiff & _).
    vm_compute in Hm. injection Hm as <-. apply Hiff. vm_compute. reflexivity.
Defined.

Ltac stamp := repeat split; reflexivity.

(** On given lines and ranges: every line has at most one arrow, and
    the formatter returns on the shifted times. *)
Ltac one_arrow_each :=
  let l := fresh "l" in
  let Hin := fresh "Hin" in
  let H := fresh "H" in
  intros l Hin; vm_compute in Hin;
  repeat (destruct Hin as [<-|Hin];
          [vm_compute;
           first [intros H; discriminate H | intros _; do 2 eexists; reflexivity]|]);
  destruct Hin.

Tactic Notation "shifted_format" integer(n) :=
  let i := fresh "i" in
  let k := fresh "k" in
  let Hc := fresh "Hc" in
  let Hk := fresh "Hk" in
  let H1 := fresh "H1" in
  let H2 := fresh "H2" in
  intros i k ? ? ? ? Hc Hk H1 H2;
  do n (try (destruct i as [|i]));
  vm_compute in Hc; try discriminate Hc; injection Hc as <- <-;
  do 3 (try (destruct k as [|k]));
  cbn [nth_error] in Hk; try discriminate Hk; injection Hk as <- <-;
  vm_compute in H1, H2; try discriminate H1; try discriminate H2;
  split; unfold formats; vm_compute; eexists; reflexivity.

Lemma retimer_keeps_cues_a_range_holds_witness :
  exists ranges st,
    parse_time_ranges_file ["0:00:00-0:00:01.128"; "0:00:02-0:00:05"] = Ret ranges
    /\ retime srt_three_cues ranges = Ret st
    /\ (exists em, In em (log st) /\ em_line em = 1%nat)
    /\ ~ (exists em, In em (log st) /\ em_line em = 5%nat)
    /\ ~ (exists em, In em (log st) /\ em_line em = 9%nat)
    /\ adjust_subtitle srt_three_cues ranges
       = Ret [line "1"; line "00:00:00,500 --> 00:00:01,000"; line "kept"; newline].
Proof.
  destruct (parse_time_ranges_file ["0:00:00-0:00:01.128"; "0:00:02-0:00:05"])
    as [ranges|] eqn:Ep; [|vm_compute in Ep; discriminate Ep].
  vm_compute in Ep. injection Ep as <-.
  destruct (retimer_keeps_cues_a_range_holds
              [(S754_zero false, S754_finite false 5080060379673919 (-52));
               (S754_finite false 4503599627370496 (-51),
                S754_finite false 5629499534213120 (-50))] srt_three_cues)
    as [Hret Hst].
  destruct Hret as [st Er]; [one_arrow_each | shifted_format 13 |].
  destruct (Hst _ Er) as (Ha & _ & Hpin & Hcue).
  pose proof (Hpin 1%nat "00:00:00,500" "00:00:01,000"
                ("00", "00", "00", "500") ("00", "00", "01", "000") newline
                eq_refl ltac:(stamp) ltac:(stamp) eq_refl) as Hc1.
  pose proof (Hpin 5%nat "00:00:01,000" "00:00:01,128"
                ("00", "00", "01", "000") ("00", "00", "01", "128") newline
                eq_refl ltac:(stamp) ltac:(stamp) eq_refl) as Hc5.
  pose proof (Hpin 9%nat "00:00:01,500" "00:00:02,500"
                ("00", "00", "01", "500") ("00", "00", "02", "500") newline
                eq_refl ltac:(stamp) ltac:(stamp) eq_refl) as Hc9.
  do 2 eexists. split; [reflexivity|]. split; [exact Er|].
  split; [|split; [|split]].
  - apply (Hcue _ _ _ Hc1). exists 0%nat. do 2 eexists.
    split; [reflexivity|]. split; vm_compute; reflexivity.
  - intros Hex. apply (Hcue _ _ _ Hc5) in Hex as (k & start & end_ & Hk & H1 & H2).
    destruct k as [|[|[|k]]]; cbn [nth_error] in Hk; try discriminate Hk;
      injection Hk as <- <-; vm_compute in H1, H2;
      first [discriminate H1 | discriminate H2].
  - intros Hex. apply (Hcue _ _ _ Hc9) in Hex as (k & start & end_ & Hk & H1 & H2).
    destruct k as [|[|[|k]]]; cbn [nth_error] in Hk; try discriminate Hk;
      injection Hk as <- <-; vm_compute in H1, H2;
      first [discriminate H1 | discriminate H2].
  - rewrite Ha. vm_compute in Er. injection Er as <-. reflexivity.
Defined.


Lemma retimer_emits_once_per_range_that_holds_witness :
  exists ranges st,
    parse_time_ranges_file ["0:00:00-0:00:10"; "0:00:10-0:00:20"] = Ret ranges
    /\ retime srt_boundary_cue ranges = Ret st
    /\ cue_at srt_boundary_cue 1
       = Some (srt_time_to_sec ("00", "00", "10", "000"),
               srt_time_to_sec ("00", "00", "10", "000"))
    /\ (2 <= times_emitted 1 (log st))%nat.
Proof.
  destruct (parse_time_ranges_file ["0:00:00-0:00:10"; "0:00:10-0:00:20"])
    as [ranges|] eqn:Ep; [|vm_compute in Ep; discriminate Ep].
  vm_compute in Ep. injection Ep as <-.
  assert (Hc : cue_at srt_boundary_cue 1
               = Some (S754_finite false 5629499534213120 (-49),
                       S754_finite false 5629499534213120 (-49)))
    by (vm_compute; reflexivity).
  destruct (retimer_emits_once_per_range_that_holds
              [(S754_zero false, S754_finite false 5629499534213120 (-49));
               (S754_finite false 5629499534213120 (-49),
                S754_finite false 5629499534213120 (-48))]
              srt_boundary_cue 1%nat _ _ Hc)
    as [Hret Hst].
  destruct Hret as [st Er]; [one_arrow_each | shifted_format 5 |].
  destruct (Hst _ Er) as (_ & _ & Hpin & _ & _ & Htwo).
  do 2 eexists. split; [reflexivity|].
  split; [exact Er|]. split.
  - exact (Hpin 1%nat "00:00:10,000" "00:00:10,000"
             ("00", "00", "10", "000") ("00", "00", "10", "000") newline
             eq_refl ltac:(stamp) ltac:(stamp) eq_refl).
  - eapply (Htwo ["0:00:00-0:00:10"; "0:00:10-0:00:20"] 0%nat);
      [vm_compute; reflexivity | reflexivity ..].
Defined.

(** C6, as stated, fails: with the touching ranges 0-10 and 10-20 the
    cue of length zero at 10 is written twice, as blocks 1 and 2. *)
Lemma boundary_cue_is_written_twice :
  exists ranges,
    parse_time_ranges_file ["0:00:00-0:00:10"; "0:00:10-0:00:20"] = Ret ranges
    /\ adjust_subtitle srt_boundary_cue ranges
       = Ret [line "1"; line "00:00:10,000 --> 00:00:10,000"; line "hello"; newline;
              line "2"; line "00:00:10,000 --> 00:00:10,000"; line "hello"; newline]
    /\ (forall st, retime srt_boundary_cue ranges = Ret st ->
          times_emitted 1 (log st) = 2%nat /\ times_emitted 1 (log st) <> 1%nat).
Proof.
  eexists. split; [vm_compute; reflexivity|].
  split; [vm_compute; reflexivity|].
  intros st H. vm_compute in H. injection H as <-.
  split; [reflexivity | discriminate].
Qed.

(** ** Exceptions of the parser, the checks of [main], the formatter *)

(** X2.  [parse_time] raises [ValueError("Invalid time: ...")] exactly
    when the pattern does not match.  Its other exceptions are the
    [ValueError] of [int] on more than 4300 digits of hours or minutes
    and the [OverflowError] of an hour count too large for a float, as
    with an hour of 310 digits. *)
Theorem parse_time_exceptions (t : string) :
  (parse_time t = Err (ValueErr ("Invalid time: " ++ t)) <-> re_time t = None)
  /\ (forall e, parse_time t = Err e ->
        (re_time t = None /\ e = ValueErr ("Invalid time: " ++ t))
        \/ (exists h m s msg,
              re_time t = Some (h, m, s)
              /\ ((4300 < String.length h)%nat \/ (4300 < String.length m)%nat)
              /\ e = ValueErr msg)
        \/ (exists h m s,
              re_time t = Some (h, m, s)
              /\ (String.length h <= 4300)%nat /\ (String.length m <= 4300)%nat
              /\ e = OverflowErr "int too large to convert to float"))
  /\ parse_time ("1" ++ Str.zeros 309 ++ ":00")
     = Err (OverflowErr "int too large to convert to float")
  /\ parse_time ("0:1" ++ Str.zeros 4300)
     = Err (ValueErr "Exceeds the limit (4300 digits) for integer string conversion: value has 4301 digits; use sys.set_int_max_str_digits() to increase the limit").
Proof.
  assert (Hall : forall e, parse_time t = Err e ->
        (re_time t = None /\ e = ValueErr ("Invalid time: " ++ t))
        \/ (exists h m s msg,
              re_time t = Some (h, m, s)
              /\ ((4300 < String.length h)%nat \/ (4300 < String.length m)%nat)
              /\ e = ValueErr msg)
        \/ (exists h m s,
              re_time t = Some (h, m, s)
              /\ (String.length h <= 4300)%nat /\ (String.length m <= 4300)%nat
              /\ e = OverflowErr "int too large to convert to float")).
  { intros e H. unfold parse_time in H.
    destruct (re_time t) as [[[h m] s]|] eqn:Er.
    - right. unfold int_of in H.
      destruct (4300 <? String.length h)%nat eqn:Eh.
      { cbn [and_then] in H. injection H as <-. left.
        apply Nat.ltb_lt in Eh. exists h, m, s. eexists. auto. }
      cbn [and_then] in H.
      destruct (4300 <? String.length m)%nat eqn:Em.
      { cbn [and_then] in H. injection H as <-. left.
        apply Nat.ltb_lt in Em. exists h, m, s. eexists. auto. }
      cbn [and_then] in H. apply Nat.ltb_ge in Eh, Em. right.
      exists h, m, s. split; [reflexivity|]. split; [exact Eh|]. split; [exact Em|].
      unfold of_int in H.
      destruct (nearest (Str.int_of h * 3600 + Str.int_of m * 60));
        cbn [and_then] in H; try discriminate H.
      now injection H as <-.
    - left. injection H as <-. auto. }
  split; [|split; [exact Hall|split; vm_compute; reflexivity]].
  split.
  - intros H. destruct (Hall _ H) as [[Hn _]|[(h & m & s & msg & Hr & Hlen & E)|(h & m & s & _ & _ & _ & E)]];
      [exact Hn| |discriminate E].
    exfalso. unfold parse_time in H. rewrite Hr in H. unfold int_of in H.
    destruct (4300 <? String.length h)%nat eqn:Eh.
    { cbn [and_then] in H. injection H as H. cbn [append] in H. discriminate H. }
    cbn [and_then] in H.
    destruct (4300 <? String.length m)%nat eqn:Em.
    { cbn [and_then] in H. injection H as H. cbn [append] in H. discriminate H. }
    apply Nat.ltb_ge in Eh, Em. lia.
  - intros Hn. unfold parse_time. now rewrite Hn.
Qed.

Lemma cut_from_all_succeed (engine : engine_call -> bool) (ov : float)
    (ranges : list TimeRange) :
  forall idx,
  (forall i r, nth_error ranges i = Some r ->
     engine (cut_segment ov (idx + i) r) = true) ->
  cut_from engine ov idx ranges
  = (map (fun ir => cut_segment ov (fst ir) (snd ir))
         (combine (seq idx (List.length ranges)) ranges), None).
Proof.
  induction ranges as [|r rest IH]; intros idx H; [reflexivity|].
  cbn [cut_from]. pose proof (H 0%nat r eq_refl) as H0.
  rewrite Nat.add_0_r in H0. rewrite H0, (IH (S idx)).
  - reflexivity.
  - intros i r' Hi. rewrite Nat.add_succ_l, <- Nat.add_succ_r. now apply (H (S i)).
Qed.

Lemma cut_from_some_fails (engine : engine_call -> bool) (ov : float)
    (ranges : list TimeRange) :
  forall idx i r,
  nth_error ranges i = Some r ->
  engine (cut_segment ov (idx + i) r) = false ->
  exists e, snd (cut_from engine ov idx ranges) = Some e.
Proof.
  induction ranges as [|a rest IH]; intros idx i r Hi Hf; [now destruct i|].
  cbn [cut_from]. destruct (engine (cut_segment ov idx a)) eqn:Ea.
  - destruct i as [|i].
    + injection Hi as ->. rewrite Nat.add_0_r in Hf. congruence.
    + cbn [nth_error] in Hi. rewrite Nat.add_succ_r, <- Nat.add_succ_l in Hf.
      destruct (IH (S idx) i r Hi Hf) as [e He].
      destruct (cut_from engine ov (S idx) rest) as [cs oe]. cbn [snd] in *.
      now exists e.
  - eexists. reflexivity.
Qed.

Lemma main_returns_spec (engine : engine_call -> bool) (args : Args) :
  how (main engine args) = Return
  <-> exists r rest m,
        parse_time_ranges_file (time_ranges_file args) = Ret (r :: rest)
        /\ get_min_duration (r :: rest) = Ret m
        /\ gt (overlap args) m = false
        /\ (forall i r', nth_error (r :: rest) i = Some r' ->
              engine (cut_segment (overlap args) i r') = true)
        /\ engine (Concat (seq 0 (List.length (r :: rest))) (output_name args)) = true
        /\ match subtitle args with
           | None => True
           | Some srt_lines =>
               exists temp_srt,
                 adjust_subtitle srt_lines (r :: rest) = Ret temp_srt
                 /\ engine (MuxSubtitle (output_name args) temp_srt "mux.mp4") = true
           end
        /\ printed (main engine args) = [MsgDone (output_name args)].
Proof.
  unfold main.
  destruct (parse_time_ranges_file (time_ranges_file args)) as [[|r rest]|e] eqn:Ep.
  - cbn. split; [discriminate|]. intros (r & rest & m & H & _). discriminate H.
  - destruct (get_min_duration_least r rest) as (m & Hm & _). rewrite Hm.
    destruct (gt (overlap args) m) eqn:Hg.
    { cbn [how]. split; [discriminate|].
      intros (r' & rest' & m' & H & Hm' & Hg' & _).
      injection H as <- <-. rewrite Hm in Hm'. injection Hm' as <-. congruence. }
    unfold assemble.
    destruct (cut_from engine (overlap args) 0 (r :: rest)) as [cuts [e|]] eqn:Ec.
    { cbn [how]. split; [discriminate|].
      intros (r' & rest' & m' & H & _ & _ & Hall & _). injection H as <- <-.
      rewrite (cut_from_all_succeed engine (overlap args) (r :: rest) 0 Hall) in Ec.
      discriminate Ec. }
    assert (Hall : forall i r', nth_error (r :: rest) i = Some r' ->
                     engine (cut_segment (overlap args) i r') = true).
    { intros i r' Hi. destruct (engine (cut_segment (overlap args) i r')) eqn:E;
        [reflexivity|].
      destruct (cut_from_some_fails engine (overlap args) (r :: rest) 0 i r' Hi E)
        as [e He]. rewrite Ec in He. discriminate He. }
    destruct (engine (Concat (seq 0 (List.length (r :: rest))) (output_name args)))
      eqn:Econ; cbn [negb].
    2:{ cbn [how]. split; [discriminate|].
        intros (r' & rest' & m' & H & _ & _ & _ & Hc & _). injection H as <- <-.
        congruence. }
    destruct (subtitle args) as [srt|] eqn:Es.
    + destruct (adjust_subtitle srt (r :: rest)) as [temp|e] eqn:Ea.
      * destruct (engine (MuxSubtitle (output_name args) temp "mux.mp4")) eqn:Emux.
        -- cbn [how printed]. split; [|reflexivity]. intros _.
           exists r, rest, m. repeat split; try assumption. now exists temp.
        -- cbn [how]. split; [discriminate|].
           intros (r' & rest' & m' & H & _ & _ & _ & _ & (t' & Ht & Hmux) & _).
           injection H as <- <-. rewrite Ea in Ht. injection Ht as <-. congruence.
      * cbn [how]. split; [discriminate|].
        intros (r' & rest' & m' & H & _ & _ & _ & _ & (t' & Ht & _) & _).
        injection H as <- <-. rewrite Ea in Ht. discriminate Ht.
    + cbn [how printed]. split; [|reflexivity]. intros _.
      exists r, rest, m. repeat split; assumption.
  - cbn. split; [discriminate|]. intros (r & rest & m & H & _). discriminate H.
Qed.

(** X12.  [main] returns if and only if the range file is valid and
    not empty, the fade is not greater than the least [end - start],
    every cut and the concatenation succeed and, when subtitles are
    given, the re-timer raises nothing and the mux succeeds; it has then
    printed the completion message and nothing else. *)
Theorem main_returns_exactly_when (engine : engine_call -> bool) (args : Args) :
  (how (main engine args) = Return
   <-> exists r rest m,
         parse_time_ranges_file (time_ranges_file args) = Ret (r :: rest)
         /\ get_min_duration (r :: rest) = Ret m
         /\ gt (overlap args) m = false
         /\ (forall i r', nth_error (r :: rest) i = Some r' ->
               engine (cut_segment (overlap args) i r') = true)
         /\ engine (Concat (seq 0 (List.length (r :: rest))) (output_name args)) = true
         /\ match subtitle args with
            | None => True
            | Some srt_lines =>
                exists temp_srt,
                  adjust_subtitle srt_lines (r :: rest) = Ret temp_srt
                  /\ engine (MuxSubtitle (output_name args) temp_srt "mux.mp4") = true
            end)
  /\ (how (main engine args) = Return ->
      printed (main engine args) = [MsgDone (output_name args)]).
Proof.
  pose proof (main_returns_spec engine args) as [Hto Hfrom]. split; [split|].
  - intros H. destruct (Hto H) as (r & rest & m & H1 & H2 & H3 & H4 & H5 & H6 & _).
    now exists r, rest, m.
  - intros (r & rest & m & H1 & H2 & H3 & H4 & H5 & H6).
    destruct (subtitle args) as [srt|] eqn:Es.
    + destruct H6 as (temp & Ha & Hmux). unfold main, assemble.
      rewrite H1, H2, H3, (cut_from_all_succeed engine (overlap args) (r :: rest) 0 H4).
      rewrite H5. cbn [negb]. rewrite Es, Ha, Hmux. reflexivity.
    + unfold main, assemble.
      rewrite H1, H2, H3, (cut_from_all_succeed engine (overlap args) (r :: rest) 0 H4).
      rewrite H5. cbn [negb]. rewrite Es. reflexivity.
  - intros H. destruct (Hto H) as (r & rest & m & _ & _ & _ & _ & _ & _ & Hp).
    exact Hp.
Qed.

(** X11.  [main] asks nothing of the engine before the range file and
    the fade are checked: a range file that does not parse ends the run
    with the message of its exception and exit status 1, an empty one
    with the exception of [min], a fade greater than the least
    [end - start] with the fade message and exit status 1, all three
    without any engine call; in every other case the first call is the
    cut of the first range, and the run does not end by [exit],
    whatever the engine does. *)
Theorem main_checks_before_it_cuts (engine : engine_call -> bool) (args : Args) :
  match parse_time_ranges_file (time_ranges_file args) with
  | Err e =>
      main engine args = mkRun [] [MsgRangeFileError (err_text e)] (Exit 1)
  | Ret [] =>
      exists e, main engine args = mkRun [] [] (Uncaught e)
  | Ret (r :: rest) =>
      exists m,
        get_min_duration (r :: rest) = Ret m
        /\ (gt (overlap args) m = true -> main engine args = fade_too_long)
        /\ (gt (overlap args) m = false ->
            (exists more,
               calls (main engine args)
               = cut_segment (overlap args) 0 r :: more)
            /\ forall code, how (main engine args) <> Exit code)
  end.
Proof.
  unfold main.
  destruct (parse_time_ranges_file (time_ranges_file args)) as [[|r rest]|e] eqn:Ep.
  - cbn. eexists. reflexivity.
  - destruct (get_min_duration_least r rest) as (m & Hm & _). rewrite Hm.
    exists m. split; [reflexivity|]. split.
    + intros ->. reflexivity.
    + intros ->. unfold assemble. cbn [cut_from].
      destruct (engine (cut_segment (overlap args) 0 r)).
      * destruct (cut_from engine (overlap args) 1 rest) as [cs [e|]].
        { cbn [calls how]. split; [now exists cs | discriminate]. }
        destruct (engine (Concat _ _)); cbn [negb].
        2:{ cbn [calls how app]. split; [eexists; reflexivity | discriminate]. }
        destruct (subtitle args) as [srt|].
        2:{ cbn [calls how app]. split; [eexists; reflexivity | discriminate]. }
        destruct (adjust_subtitle srt (r :: rest)).
        2:{ cbn [calls how app]. split; [eexists; reflexivity | discriminate]. }
        destruct (engine (MuxSubtitle _ _ _));
          cbn [calls how app]; (split; [eexists; reflexivity | discriminate]).
      * cbn [calls how]. split; [now exists [] | discriminate].
  - reflexivity.
Qed.

(** X18.  The formatter does not carry into the seconds a millisecond
    count that rounds to 1000: it writes [,1000] for 0.9996 and for
    59.9996, and also for the float just below 0.9995, whose product
    with 1000 is rounded to 999.5 and then to the even 1000. *)
Theorem milliseconds_can_be_1000 :
  sec_to_srt_time (float_of "0.9996") = Ret "00:00:00,1000"
  /\ sec_to_srt_time (float_of "59.9996") = Ret "00:00:59,1000"
  /\ lt (S754_finite false 9002695655113621 (-53)) (float_of "0.9995") = true
  /\ mul (S754_finite false 9002695655113621 (-53)) (nearest 1000)
     = S754_finite false 8791694975696896 (-43)
  /\ sec_to_srt_time (S754_finite false 9002695655113621 (-53))
     = Ret "00:00:00,1000".
Proof. repeat split; vm_compute; reflexivity. Qed.

End F64Facts.
